(** * shell.c: process launch and job control

    A shallow embedding of the launch core of [shell.c] (the revision with
    redirection, process groups and background jobs): [launch_process],
    [execute_cmd], [process_redirects_io], [put_process_in_foreground] and
    their helpers, run against an explicit model of the operating-system
    calls they make.

    C data is rendered as follows.
    - [char *] is [option string]: [None] is the null pointer.
    - [char *argv[]] is [list (option string)], one element per slot.
    - [pid_t] and [int] are [Z].
    - The process image (signal dispositions, descriptors 0 and 1, the
      globals of shell.c) and the kernel objects the shell talks to (process
      table, terminal behind descriptor 0) form the record [World].
    - Every call that acts on the system appends an [event] to the world's
      trace, so that "is called", "is skipped" and "happens before" are
      statements on lists. The plain queries [isatty], [getpid], [getpgrp]
      and [getenv] leave no event.
    - A computation ends in an [outcome]: it returns, the process image is
      replaced by [execv], the process exits, it blocks for ever, or it
      reaches undefined behaviour. *)

From Stdlib Require Import String Ascii List ZArith Bool Lia PeanoNat.
From Stdlib Require Import DecimalString.
Import ListNotations.

Open Scope string_scope.
Open Scope list_scope.

(* ================================================================== *)
(** ** C strings *)

Module CStr.

(** [strcmp(a, b) == 0] *)
Definition streq (a b : string) : bool := String.eqb a b.

(** [strchr(s, c) != NULL] for a non-null [s]. *)
Fixpoint has_char (c : ascii) (s : string) : bool :=
  match s with
  | EmptyString => false
  | String d r => if Ascii.eqb d c then true else has_char c r
  end.

(** One call [strsep(&p, ":")] on a non-null [p]: the field up to the first
    colon, and what [p] points to afterwards ([None]: no colon was found and
    [p] becomes null). *)
Fixpoint strsep_str (s : string) : string * option string :=
  match s with
  | EmptyString => (EmptyString, None)
  | String c r =>
      if Ascii.eqb c ":"%char then (EmptyString, Some r)
      else let (t, rest) := strsep_str r in (String c t, rest)
  end.

(** [strsep(&p, ":")]: returns null, leaving [p] null, when [p] is null. *)
Definition strsep (p : option string) : option string * option string :=
  match p with
  | None => (None, None)
  | Some s => let (t, rest) := strsep_str s in (Some t, rest)
  end.

(** Every field a run of [strsep] calls returns on a non-null string, in
    order, until the call that returns null. *)
Fixpoint fields (s : string) : list string :=
  match s with
  | EmptyString => [EmptyString]
  | String c r =>
      if Ascii.eqb c ":"%char then EmptyString :: fields r
      else match fields r with
           | [] => [String c EmptyString]
           | d :: ds => String c d :: ds
           end
  end.

(** The sequence of values taken by [each_dir] in
    [while ((each_dir = strsep(&path_env, ":")) != NULL)]. *)
Definition strsep_all (p : option string) : list string :=
  match p with
  | None => []
  | Some s => fields s
  end.

End CStr.

(* ================================================================== *)
(** ** Tokens and argument vectors *)

(** Modelled from the spec: [struct tokens] and its accessors are declared
    in tokenizer.h, which is not among the sources. The specification calls
    a command line "an ordered sequence of string tokens"; [tokens_get_token]
    yields the n-th of them and the null pointer past the end. *)
Definition tokens := list string.

Definition tokens_get_length (t : tokens) : nat := List.length t.

Definition tokens_get_token (t : tokens) (n : nat) : option string :=
  nth_error t n.

(** [char *argv[]] *)
Definition argv_t := list (option string).

(** [argv[i]]; reading a slot outside the array has no value. *)
Definition slot (argv : argv_t) (i : nat) : option (option string) :=
  nth_error argv i.

(** [argv[i] = v] inside the array. *)
Fixpoint store (argv : argv_t) (i : nat) (v : option string) : argv_t :=
  match argv, i with
  | [], _ => []
  | _ :: r, O => v :: r
  | a :: r, S j => a :: store r j v
  end.

(** What a program started with this array receives: the strings before the
    first null slot. *)
Fixpoint exec_args (argv : argv_t) : list string :=
  match argv with
  | Some a :: r => a :: exec_args r
  | _ => []
  end.

(** The array built at the head of [execute_cmd]:
    [cmd_argv[i] = tokens_get_token(tokens, i)] for [i < cmd_argc], then
    [cmd_argv[cmd_argc] = NULL]. *)
Definition build_argv (t : tokens) : argv_t :=
  map (tokens_get_token t) (seq 0 (tokens_get_length t)) ++ [None].

(** [cmd_needs_path_resolution]: [strchr(cmd, '/') == NULL]. *)
Definition cmd_needs_path_resolution (cmd : string) : bool :=
  negb (CStr.has_char "/"%char cmd).

(** [program_needs_io_redirection] *)
Fixpoint program_needs_io_redirection (t : tokens) : bool :=
  match t with
  | [] => false
  | token :: r =>
      if CStr.streq token "<" || CStr.streq token ">" then true
      else program_needs_io_redirection r
  end.

(** [program_needs_put_in_background] *)
Fixpoint program_needs_put_in_background (t : tokens) : bool :=
  match t with
  | [] => false
  | token :: r =>
      if CStr.streq token "&" then true
      else program_needs_put_in_background r
  end.

(** [cmd_line_remove_put_process_in_background_flag]: walk the array from
    slot 0 up to its first null slot; the first ["&"] met on the way is
    overwritten with null and the walk stops. The array of [execute_cmd]
    always has a null slot, so the walk never leaves it. *)
Fixpoint cmd_line_remove_put_process_in_background_flag (argv : argv_t)
  : argv_t :=
  match argv with
  | [] => []
  | None :: r => None :: r
  | Some a :: r =>
      if CStr.streq a "&" then None :: r
      else Some a :: cmd_line_remove_put_process_in_background_flag r
  end.

(* ================================================================== *)
(** ** The process and its operating system *)

Open Scope Z_scope.

Inductive signum := SIGINT | SIGTSTP | SIGTTOU.
Inductive sighandler := SIG_DFL | SIG_IGN.

Definition signum_eqb (a b : signum) : bool :=
  match a, b with
  | SIGINT, SIGINT | SIGTSTP, SIGTSTP | SIGTTOU, SIGTTOU => true
  | _, _ => false
  end.

(** [struct termios], reduced to its four flag words. *)
Record termios := mk_termios
  { c_iflag : Z; c_oflag : Z; c_cflag : Z; c_lflag : Z }.

Definition termios_zero : termios := mk_termios 0 0 0 0.

(** The [fopen] modes the shell uses: ["r"], and ["w"] (create or
    truncate). *)
Inductive open_mode := mode_r | mode_w.

(** A stream returned by [fopen]: the file it was opened on and how. *)
Definition FILE := (string * open_mode)%type.

(** What descriptor 0 or 1 of the process refers to. *)
Inductive binding :=
| Inherited
| ToFile (path : string) (m : open_mode).

(** The terminal behind descriptor 0, when there is one. *)
Record tty := mk_tty { fg_pgrp : Z; tmodes : termios }.

(** The four globals of shell.c. *)
Record globals := mk_globals
  { shell_is_interactive : bool;
    shell_terminal : Z;
    shell_tmodes : termios;
    shell_pgid : Z }.

(** C zero-initialises them. *)
Definition globals_zero : globals := mk_globals false 0 termios_zero 0.

Definition STDIN_FILENO : Z := 0.
Definition STDOUT_FILENO : Z := 1.

Inductive event :=
| EvFork (ret : Z)
| EvSetpgid (pid pgid : Z)
| EvSignal (s : signum) (h : sighandler)
| EvKill (pid : Z)
| EvTcgetpgrp (fd : Z)
| EvTcsetpgrp (fd : Z) (pgrp : Z)
| EvTcgetattr (fd : Z)
| EvTcsetattr (fd : Z) (t : termios)
| EvWait (ret : Z)
| EvFopen (path : string) (m : open_mode) (ok : bool)
| EvDup2 (f : FILE) (fd : Z)
| EvExecv (path : string) (argv : argv_t)
| EvPrintf (msg : string)
| EvExit (status : Z).

(** What the program cannot decide: the environment variable, which files
    open, which paths [execv] can run, the modes a job leaves the terminal
    in, and what the system does when [tcsetpgrp] is given the pid of a
    process that no process has for its group. POSIX asks for [EPERM]
    there; Linux goes by the number and makes it the foreground group
    ([pid_as_pgrp] is [true]). *)
Record Env := mk_Env
  { env_PATH : option string;
    can_read : string -> bool;
    can_write : string -> bool;
    can_exec : string -> bool;
    job_tmodes : termios;
    pid_as_pgrp : bool }.

Record World := mk_World
  { env : Env;
    glob : globals;
    self : Z;                    (* getpid() *)
    procs : list (Z * Z);        (* process table: pid, process group *)
    children : list Z;           (* children not yet waited for *)
    exit_order : list Z;         (* the order in which children terminate *)
    handlers : signum -> sighandler;
    fd0 : binding;
    fd1 : binding;
    term : option tty;           (* None: descriptor 0 is not a terminal *)
    trace : list event }.

Definition emit (e : event) (w : World) : World :=
  mk_World (env w) (glob w) (self w) (procs w) (children w) (exit_order w)
           (handlers w) (fd0 w) (fd1 w) (term w) (trace w ++ [e]).

Definition set_glob (g : globals) (w : World) : World :=
  mk_World (env w) g (self w) (procs w) (children w) (exit_order w)
           (handlers w) (fd0 w) (fd1 w) (term w) (trace w).

Definition set_procs (p : list (Z * Z)) (w : World) : World :=
  mk_World (env w) (glob w) (self w) p (children w) (exit_order w)
           (handlers w) (fd0 w) (fd1 w) (term w) (trace w).

Definition set_handlers (h : signum -> sighandler) (w : World) : World :=
  mk_World (env w) (glob w) (self w) (procs w) (children w) (exit_order w)
           h (fd0 w) (fd1 w) (term w) (trace w).

Definition set_fd0 (b : binding) (w : World) : World :=
  mk_World (env w) (glob w) (self w) (procs w) (children w) (exit_order w)
           (handlers w) b (fd1 w) (term w) (trace w).

Definition set_fd1 (b : binding) (w : World) : World :=
  mk_World (env w) (glob w) (self w) (procs w) (children w) (exit_order w)
           (handlers w) (fd0 w) b (term w) (trace w).

Definition set_term (t : option tty) (w : World) : World :=
  mk_World (env w) (glob w) (self w) (procs w) (children w) (exit_order w)
           (handlers w) (fd0 w) (fd1 w) t (trace w).

(** How a computation ends. *)
Inductive outcome (A : Type) :=
| Ret (a : A) (w : World)                              (* it returns [a] *)
| Replaced (path : string) (args : list string) (w : World)
                                                       (* execv succeeded *)
| Exited (status : Z) (w : World)                      (* exit(status) *)
| Blocked (w : World)                                  (* never resumes *)
| Undefined (w : World).                               (* undefined behaviour *)

Arguments Ret {A} a w.
Arguments Replaced {A} path args w.
Arguments Exited {A} status w.
Arguments Blocked {A} w.
Arguments Undefined {A} w.

Definition M (A : Type) : Type := World -> outcome A.

Definition ret {A} (a : A) : M A := fun w => Ret a w.

Definition bind {A B} (m : M A) (k : A -> M B) : M B :=
  fun w =>
    match m w with
    | Ret a w' => k a w'
    | Replaced p a w' => Replaced p a w'
    | Exited s w' => Exited s w'
    | Blocked w' => Blocked w'
    | Undefined w' => Undefined w'
    end.

Definition undefined {A} : M A := fun w => Undefined w.

Notation "x <- m ;; k" := (bind m (fun x => k))
  (at level 61, m at next level, right associativity).
Notation "m ;; k" := (bind m (fun _ => k))
  (at level 61, right associativity).

(** The world a computation ends in. *)
Definition final {A} (o : outcome A) : World :=
  match o with
  | Ret _ w | Replaced _ _ w | Exited _ w | Blocked w | Undefined w => w
  end.

(** How a computation ends, without the world it ends in. *)
Inductive result (A : Type) :=
| Returns (a : A)
| Execs (path : string) (args : list string)
| Exits (status : Z)
| Blocks
| Undef.

Arguments Returns {A} a.
Arguments Execs {A} path args.
Arguments Exits {A} status.
Arguments Blocks {A}.
Arguments Undef {A}.

Definition result_of {A} (o : outcome A) : result A :=
  match o with
  | Ret a _ => Returns a
  | Replaced p a _ => Execs p a
  | Exited s _ => Exits s
  | Blocked _ => Blocks
  | Undefined _ => Undef
  end.

(* ------------------------------------------------------------------ *)
(** *** Process table *)

Definition pgid_of (ps : list (Z * Z)) (p : Z) : option Z :=
  match find (fun e => fst e =? p) ps with
  | Some e => Some (snd e)
  | None => None
  end.

Definition pgid_set (ps : list (Z * Z)) (p g : Z) : list (Z * Z) :=
  map (fun e => if fst e =? p then (p, g) else e) ps.

Definition group_members (ps : list (Z * Z)) (g : Z) : list Z :=
  map fst (filter (fun e => snd e =? g) ps).

Definition group_exists (ps : list (Z * Z)) (g : Z) : bool :=
  existsb (fun e => snd e =? g) ps.

Definition is_process (ps : list (Z * Z)) (p : Z) : bool :=
  match pgid_of ps p with
  | Some _ => true
  | None => false
  end.

Definition remove_pid (p : Z) (l : list Z) : list Z :=
  filter (fun q => negb (q =? p)) l.

Definition remove_proc (p : Z) (ps : list (Z * Z)) : list (Z * Z) :=
  filter (fun e => negb (fst e =? p)) ps.

Definition is_child (p : Z) (kids : list Z) : bool :=
  existsb (fun q => q =? p) kids.

(** The first child to terminate among [kids], following [order]; the
    entries of [order] that are not children are of no concern to [wait]. *)
Fixpoint next_exit (kids order : list Z) : option (Z * list Z) :=
  match order with
  | [] => None
  | c :: r => if is_child c kids then Some (c, r) else next_exit kids r
  end.

(* ------------------------------------------------------------------ *)
(** *** Library calls *)

(** The three ways a [fork()] call is seen: it fails, or it returns in the
    parent with the child's pid, or it returns 0 in the new child [cpid]. *)
Inductive fork_view :=
| ForkFailed
| InParent (cpid : Z)
| InChild (cpid : Z).

Definition parent_group (w : World) : Z :=
  match pgid_of (procs w) (self w) with
  | Some g => g
  | None => self w
  end.

Definition fork (v : fork_view) : M Z := fun w =>
  match v with
  | ForkFailed => Ret (-1) (emit (EvFork (-1)) w)
  | InParent c =>
      Ret c (emit (EvFork c)
        (mk_World (env w) (glob w) (self w)
                  (procs w ++ [(c, parent_group w)])
                  (children w ++ [c]) (exit_order w)
                  (handlers w) (fd0 w) (fd1 w) (term w) (trace w)))
  | InChild c =>
      Ret 0 (emit (EvFork 0)
        (mk_World (env w) (glob w) c
                  (procs w ++ [(c, parent_group w)])
                  [] []
                  (handlers w) (fd0 w) (fd1 w) (term w) (trace w)))
  end.

(** [setpgid(pid, pgid)]: 0 stands for the caller, resp. for the target's
    own pid. *)
Definition setpgid (pid pgid : Z) : M Z := fun w =>
  let w1 := emit (EvSetpgid pid pgid) w in
  if (pid <? 0) || (pgid <? 0) then Ret (-1) w1
  else
    let target := if pid =? 0 then self w else pid in
    let group := if pgid =? 0 then target else pgid in
    match pgid_of (procs w) target with
    | None => Ret (-1) w1
    | Some _ =>
        if (group =? target) || group_exists (procs w) group
        then Ret 0 (set_procs (pgid_set (procs w) target group) w1)
        else Ret (-1) w1
    end.

Definition signal (s : signum) (h : sighandler) : M unit := fun w =>
  Ret tt (set_handlers (fun s' => if signum_eqb s' s then h else handlers w s')
                       (emit (EvSignal s h) w)).

Definition isatty (fd : Z) : M bool := fun w =>
  Ret (if fd =? 0 then match term w with Some _ => true | None => false end
       else false) w.

Definition getpid : M Z := fun w => Ret (self w) w.

Definition getpgrp : M Z := fun w => Ret (parent_group w) w.

Definition tcgetpgrp (fd : Z) : M Z := fun w =>
  let w1 := emit (EvTcgetpgrp fd) w in
  if fd =? 0
  then match term w with
       | Some t => Ret (fg_pgrp t) w1
       | None => Ret (-1) w1
       end
  else Ret (-1) w1.

(** [tcsetpgrp(fd, pgrp)] fails, changing nothing, when [fd] is not a
    terminal or [pgrp] names no process group: it is not the group of some
    process, and not, where the system settles for that, the pid of some
    process. *)
Definition tcsetpgrp (fd pgrp : Z) : M Z := fun w =>
  let w1 := emit (EvTcsetpgrp fd pgrp) w in
  if fd =? 0
  then match term w with
       | Some t =>
           if group_exists (procs w) pgrp
              || (pid_as_pgrp (env w) && is_process (procs w) pgrp)
           then Ret 0 (set_term (Some (mk_tty pgrp (tmodes t))) w1)
           else Ret (-1) w1
       | None => Ret (-1) w1
       end
  else Ret (-1) w1.

(** [tcgetattr(fd, &shell_tmodes)] *)
Definition tcgetattr_shell_tmodes (fd : Z) : M Z := fun w =>
  let w1 := emit (EvTcgetattr fd) w in
  if fd =? 0
  then match term w with
       | Some t =>
           let g := glob w in
           Ret 0 (set_glob (mk_globals (shell_is_interactive g)
                                       (shell_terminal g) (tmodes t)
                                       (shell_pgid g)) w1)
       | None => Ret (-1) w1
       end
  else Ret (-1) w1.

(** [tcsetattr(fd, TCSADRAIN, &t)] *)
Definition tcsetattr (fd : Z) (t : termios) : M Z := fun w =>
  let w1 := emit (EvTcsetattr fd t) w in
  if fd =? 0
  then match term w with
       | Some ty => Ret 0 (set_term (Some (mk_tty (fg_pgrp ty) t)) w1)
       | None => Ret (-1) w1
       end
  else Ret (-1) w1.

(** [wait(NULL)]: fails at once without children; otherwise suspends the
    caller until some child, whichever terminates first, has terminated,
    and reaps it. Jobs may have changed the terminal modes meanwhile. *)
Definition wait : M Z := fun w =>
  match children w with
  | [] => Ret (-1) (emit (EvWait (-1)) w)
  | _ :: _ =>
      match next_exit (children w) (exit_order w) with
      | None => Blocked w
      | Some (c, rest) =>
          Ret c (emit (EvWait c)
            (mk_World (env w) (glob w) (self w)
                      (remove_proc c (procs w))
                      (remove_pid c (children w)) rest
                      (handlers w) (fd0 w) (fd1 w)
                      (match term w with
                       | Some t => Some (mk_tty (fg_pgrp t)
                                                (job_tmodes (env w)))
                       | None => None
                       end)
                      (trace w)))
      end
  end.

(** [fopen(path, mode)]; a null [path] is undefined. *)
Definition fopen (path : option string) (m : open_mode) : M (option FILE) :=
  fun w =>
    match path with
    | None => Undefined w
    | Some p =>
        let ok := match m with
                  | mode_r => can_read (env w) p
                  | mode_w => can_write (env w) p
                  end in
        Ret (if ok then Some (p, m) else None) (emit (EvFopen p m ok) w)
    end.

(** [fileno(file)] dereferences [file]. *)
Definition fileno (file : option FILE) : M FILE := fun w =>
  match file with
  | None => Undefined w
  | Some f => Ret f w
  end.

(** [dup2(fileno(file), fd)] for [fd] 0 or 1. *)
Definition dup2 (f : FILE) (fd : Z) : M unit := fun w =>
  let w1 := emit (EvDup2 f fd) w in
  if fd =? STDIN_FILENO then Ret tt (set_fd0 (ToFile (fst f) (snd f)) w1)
  else if fd =? STDOUT_FILENO then Ret tt (set_fd1 (ToFile (fst f) (snd f)) w1)
  else Ret tt w1.

(** [execv(path, argv)] returns, with -1, only when it fails. *)
Definition execv (path : string) (argv : argv_t) : M Z := fun w =>
  let w1 := emit (EvExecv path argv) w in
  if can_exec (env w) path then Replaced path (exec_args argv) w1
  else Ret (-1) w1.

Definition getenv_PATH : M (option string) := fun w => Ret (env_PATH (env w)) w.

Definition printf (msg : string) : M unit := fun w =>
  Ret tt (emit (EvPrintf msg) w).

Definition exit {A} (status : Z) : M A := fun w =>
  Exited status (emit (EvExit status) w).

(* ================================================================== *)
(** ** shell.c *)

(** Reading and writing the globals. *)
Definition global {X} (field : globals -> X) : M X := fun w =>
  Ret (field (glob w)) w.

Definition set_shell_terminal (fd : Z) : M unit := fun w =>
  Ret tt (set_glob (mk_globals (shell_is_interactive (glob w)) fd
                               (shell_tmodes (glob w)) (shell_pgid (glob w)))
                   w).

Definition set_shell_is_interactive (b : bool) : M unit := fun w =>
  Ret tt (set_glob (mk_globals b (shell_terminal (glob w))
                               (shell_tmodes (glob w)) (shell_pgid (glob w)))
                   w).

Definition set_shell_pgid (p : Z) : M unit := fun w =>
  Ret tt (set_glob (mk_globals (shell_is_interactive (glob w))
                               (shell_terminal (glob w))
                               (shell_tmodes (glob w)) p)
                   w).

(** [kill(-shell_pgid, SIGTTIN)] stops the shell's own group; the shell runs
    again only if somebody else continues it, which lies outside this
    model. *)
Definition kill_SIGTTIN (pid : Z) : M Z := fun w =>
  Blocked (emit (EvKill pid) w).

(** [init_shell]. Of the loop
    [while (tcgetpgrp(shell_terminal) != (shell_pgid = getpgrp()))] one
    round is modelled: a shell that is not in the foreground stops itself. *)
Definition init_shell : M unit :=
  set_shell_terminal STDIN_FILENO ;;
  fd <- global shell_terminal ;;
  interactive <- isatty fd ;;
  set_shell_is_interactive interactive ;;
  if interactive then
    fg <- tcgetpgrp fd ;;
    pg <- getpgrp ;;
    set_shell_pgid pg ;;
    (if negb (fg =? pg) then kill_SIGTTIN (- pg) else ret 0) ;;
    signal SIGINT SIG_IGN ;;
    signal SIGTSTP SIG_IGN ;;
    signal SIGTTOU SIG_IGN ;;
    me <- getpid ;;
    set_shell_pgid me ;;
    tcsetpgrp fd me ;;
    tcgetattr_shell_tmodes fd ;;
    ret tt
  else ret tt.

(** [process_redirects_io(argc, argv)], the loop from index [i] with [n]
    iterations left. [strcmp] on a null or out-of-range slot is undefined. *)
Fixpoint process_redirects_io_from (n i : nat) (argv : argv_t) : M argv_t :=
  match n with
  | O => ret argv
  | S n' =>
      match slot argv i with
      | Some (Some a) =>
          if CStr.streq "<" a then
            file <- fopen (match slot argv (i + 1) with
                           | Some p => p
                           | None => None
                           end) mode_r ;;
            f <- fileno file ;;
            dup2 f STDIN_FILENO ;;
            ret (store argv i None)
          else if CStr.streq ">" a then
            file <- fopen (match slot argv (i + 1) with
                           | Some p => p
                           | None => None
                           end) mode_w ;;
            f <- fileno file ;;
            dup2 f STDOUT_FILENO ;;
            ret (store argv i None)
          else process_redirects_io_from n' (S i) argv
      | _ => undefined
      end
  end.

Definition process_redirects_io (argc : nat) (argv : argv_t) : M argv_t :=
  process_redirects_io_from argc 0 argv.

(** [char full_path_cmd[256]] *)
Definition FULL_PATH_CMD_SIZE : nat := 256.

(** [strcpy(full_path_cmd, each_dir); strcat(full_path_cmd, "/");
    strcat(full_path_cmd, cmd_argv[0])]: the three calls write
    [strlen(each_dir) + 1 + strlen(cmd)] characters and a terminating zero
    into the 256 bytes of [full_path_cmd]; writing past its end is
    undefined. *)
Definition build_full_path (each_dir cmd : string) : M string := fun w =>
  let s := (each_dir ++ "/" ++ cmd)%string in
  if (String.length s <? FULL_PATH_CMD_SIZE)%nat then Ret s w
  else Undefined w.

(** The body of [while ((each_dir = strsep(&path_env, ":")) != NULL)], over
    the values [each_dir] takes; the result is the array as the loop leaves
    it. *)
Fixpoint resolve_loop (dirs : list string) (cmd_argv : argv_t) : M argv_t :=
  match dirs with
  | [] => ret cmd_argv
  | each_dir :: rest =>
      match slot cmd_argv 0 with
      | Some (Some cmd) =>
          full_path_cmd <- build_full_path each_dir cmd ;;
          let cmd_tmp := Some cmd in
          let cmd_argv := store cmd_argv 0 (Some full_path_cmd) in
          execv full_path_cmd cmd_argv ;;
          let cmd_argv := store cmd_argv 0 cmd_tmp in
          resolve_loop rest cmd_argv
      | _ => undefined
      end
  end.

(** [execute_cmd] *)
Definition execute_cmd (t : tokens) : M Z :=
  let cmd_argc := tokens_get_length t in
  let cmd_argv := build_argv t in
  cmd_argv <- (if program_needs_io_redirection t
               then process_redirects_io cmd_argc cmd_argv
               else ret cmd_argv) ;;
  let cmd_argv := if program_needs_put_in_background t
                  then cmd_line_remove_put_process_in_background_flag cmd_argv
                  else cmd_argv in
  match slot cmd_argv 0 with
  | Some (Some cmd) =>
      if cmd_needs_path_resolution cmd then
        path_env <- getenv_PATH ;;
        resolve_loop (CStr.strsep_all path_env) cmd_argv ;;
        ret (-1)
      else execv cmd cmd_argv
  | _ => undefined              (* strchr(NULL, '/') *)
  end.

(** [init_child_process] *)
Definition init_child_process : M unit :=
  signal SIGINT SIG_DFL ;;
  signal SIGTSTP SIG_DFL ;;
  signal SIGTTOU SIG_DFL.

(** [put_process_in_foreground] *)
Definition put_process_in_foreground (pid : Z) : M unit :=
  fd <- global shell_terminal ;;
  tcsetpgrp fd pid ;;
  wait ;;
  fd <- global shell_terminal ;;
  pgid <- global shell_pgid ;;
  tcsetpgrp fd pgid ;;
  fd <- global shell_terminal ;;
  modes <- global shell_tmodes ;;
  tcsetattr fd modes ;;
  ret tt.

(** [put_process_in_background]: its body is a comment. *)
Definition put_process_in_background (pid : Z) : M unit := ret tt.

Definition diagnostic : string :=
  ("This shell doesn't know how to run programs." ++ String "010"%char "")%string.

(** [launch_process], as seen by the continuation [v] of its [fork()]. *)
Definition launch_process (v : fork_view) (t : tokens) : M unit :=
  pid <- fork v ;;
  setpgid pid pid ;;
  if pid =? 0 then
    init_child_process ;;
    r <- execute_cmd t ;;
    if r =? -1 then
      printf diagnostic ;;
      exit 1
    else ret tt
  else
    if program_needs_put_in_background t
    then put_process_in_background pid
    else put_process_in_foreground pid.

(* ================================================================== *)
(** ** Vocabulary of the properties *)

(** The redirection operators, and the three reserved tokens. *)
Definition is_redirect (t : string) : bool :=
  CStr.streq t "<" || CStr.streq t ">".

Definition is_background (t : string) : bool := CStr.streq t "&".

Definition is_marker (t : string) : bool :=
  is_redirect t || is_background t.

(** The tokens in front of the first one that satisfies [stop]. *)
Fixpoint args_before (stop : string -> bool) (t : tokens) : list string :=
  match t with
  | [] => []
  | a :: r => if stop a then [] else a :: args_before stop r
  end.

(** The token that follows the first occurrence of [op]. *)
Fixpoint operand_of (op : string) (t : tokens) : option string :=
  match t with
  | [] => None
  | a :: r => if CStr.streq a op then hd_error r else operand_of op r
  end.

(** The first redirection operator of a line. *)
Fixpoint first_redirect (t : tokens) : option string :=
  match t with
  | [] => None
  | a :: r => if is_redirect a then Some a else first_redirect r
  end.

Definition is_prefix (l t : list string) : Prop := exists r, t = l ++ r.

(** The candidate path of a directory: [dir + "/" + cmd]. *)
Definition candidate (cmd dir : string) : string :=
  (dir ++ "/" ++ cmd)%string.

(** It fits [full_path_cmd] together with its terminating zero. *)
Definition fits (cmd dir : string) : Prop :=
  (String.length (candidate cmd dir) < FULL_PATH_CMD_SIZE)%nat.

(** The calls that get or set terminal attributes or the terminal's
    foreground process group. *)
Definition is_terminal_call (e : event) : bool :=
  match e with
  | EvTcgetpgrp _ | EvTcsetpgrp _ _ | EvTcgetattr _ | EvTcsetattr _ _ => true
  | _ => false
  end.

Definition is_printf (e : event) : bool :=
  match e with EvPrintf _ => true | _ => false end.

Definition is_execv (e : event) : bool :=
  match e with EvExecv _ _ => true | _ => false end.


(** The first part of [execute_cmd]: the array after the redirection and
    background-marker steps, as it reaches the resolution step. *)
Definition strip_phase (t : tokens) : M argv_t :=
  cmd_argv <- (if program_needs_io_redirection t
               then process_redirects_io (tokens_get_length t) (build_argv t)
               else ret (build_argv t)) ;;
  ret (if program_needs_put_in_background t
       then cmd_line_remove_put_process_in_background_flag cmd_argv
       else cmd_argv).

(** The second part of [execute_cmd], on that array. *)
Definition resolve_phase (cmd_argv : argv_t) : M Z :=
  match slot cmd_argv 0 with
  | Some (Some cmd) =>
      if cmd_needs_path_resolution cmd then
        path_env <- getenv_PATH ;;
        resolve_loop (CStr.strsep_all path_env) cmd_argv ;;
        ret (-1)
      else execv cmd cmd_argv
  | _ => undefined
  end.

(** Appending a list of events. *)
Definition emits (evs : list event) (w : World) : World :=
  fold_left (fun w e => emit e w) evs w.

(** The [execv] call of one candidate. *)
Definition attempt (cmd_argv : argv_t) (cmd dir : string) : event :=
  EvExecv (candidate cmd dir) (store cmd_argv 0 (Some (candidate cmd dir))).

(** The directories tried, in order, up to and including the first whose
    candidate [execv] can run. *)
Fixpoint tried (e : Env) (cmd : string) (dirs : list string) : list string :=
  match dirs with
  | [] => []
  | d :: r => if can_exec e (candidate cmd d) then [d] else d :: tried e cmd r
  end.

(** The first directory whose candidate [execv] can run. *)
Fixpoint winner (e : Env) (cmd : string) (dirs : list string) : option string :=
  match dirs with
  | [] => None
  | d :: r => if can_exec e (candidate cmd d) then Some d else winner e cmd r
  end.

(** [w'] is [w] after further calls, each satisfying [P], none of which
    touched the process table, the signal dispositions, the globals, the
    terminal or the children of the process. *)
Definition step (P : event -> Prop) (w w' : World) : Prop :=
  self w' = self w /\ procs w' = procs w /\ handlers w' = handlers w /\
  glob w' = glob w /\ env w' = env w /\ term w' = term w /\
  children w' = children w /\
  exists evs, trace w' = trace w ++ evs /\ Forall P evs.

(** [m] only makes such calls, and the values it returns satisfy [Q]. *)
Definition runs {A} (P : event -> Prop) (Q : A -> Prop) (m : M A) : Prop :=
  forall w, step P w (final (m w)) /\ forall a w', m w = Ret a w' -> Q a.

(** The shape of the [execv] calls of [execute_cmd] on the line [t]: the
    program would receive the path executed, followed by the tokens of [t]
    in front of its first reserved token, the first of them left out. *)
Definition exec_shape (t : tokens) (e : event) : Prop :=
  match e with
  | EvExecv path argv =>
      exec_args argv = path :: tl (args_before is_marker t) /\
      exists cmd, hd_error (args_before is_marker t) = Some cmd /\
                  (cmd_needs_path_resolution cmd = false -> path = cmd) /\
                  (cmd_needs_path_resolution cmd = true ->
                   exists dir, path = candidate cmd dir)
  | _ => True
  end.

(* ------------------------------------------------------------------ *)
(** *** Sample sessions *)

Module Sample.

Definition among (l : list string) (p : string) : bool :=
  existsb (String.eqb p) l.

Definition cooked : termios := mk_termios 1 2 3 4.
Definition raw : termios := mk_termios 9 9 9 9.

(** A freshly started shell, pid 3 and leader of group 3, with a zero
    image. [tt] is the terminal behind its standard input, if any. *)
Definition boot (e : Env) (tt : option tty) : World :=
  mk_World e globals_zero 3 [(3, 3)] [] [] (fun _ => SIG_DFL)
           Inherited Inherited tt [].

(** A Linux system with the given [PATH] and executables. *)
Definition files (path : option string) (exe : list string) : Env :=
  mk_Env path (among ["in.txt"]) (among ["out.txt"]) (among exe) raw true.

Definition usual : Env := files (Some "/a:/b") ["/b/foo"; "/bin/ls"].

(** An interactive session after [init_shell], with an empty trace. *)
Definition interactive (e : Env) : World :=
  let w := final (init_shell (boot e (Some (mk_tty 3 cooked)))) in
  mk_World (env w) (glob w) (self w) (procs w) (children w) (exit_order w)
           (handlers w) (fd0 w) (fd1 w) (term w) [].

(** A session whose standard input is not a terminal, after [init_shell]. *)
Definition batch (e : Env) : World :=
  final (init_shell (boot e None)).

(** [w] with children [kids] running and terminating in the order [order]. *)
Definition with_children (kids : list Z) (order : list Z) (w : World) : World :=
  mk_World (env w) (glob w) (self w)
           (procs w ++ map (fun k => (k, k)) kids) kids order
           (handlers w) (fd0 w) (fd1 w) (term w) (trace w).

(** A string of [n] letters. *)
Fixpoint letters (n : nat) : string :=
  match n with
  | O => EmptyString
  | S k => String "a"%char (letters k)
  end.

(** [PATH] is a directory of 260 letters, then [/bin]; [/bin/ls] can be
    run. *)
Definition deep : Env :=
  files (Some (letters 260 ++ ":/bin")%string) ["/bin/ls"].

End Sample.

(* ================================================================== *)
(** ** The first revision of shell.c *)

(** [cmd_pathname_needs_resolution] *)
Definition cmd_pathname_needs_resolution (cmd : string) : bool :=
  negb (CStr.has_char "/"%char cmd).

(** [execute_cmd] of the first revision: the array of all tokens goes
    straight to the resolution step, whose loop is the one above. *)
Definition execute_cmd_v1 (t : tokens) : M Z :=
  let cmd_argv := build_argv t in
  match slot cmd_argv 0 with
  | Some (Some cmd) =>
      if cmd_pathname_needs_resolution cmd then
        path_env <- getenv_PATH ;;
        resolve_loop (CStr.strsep_all path_env) cmd_argv ;;
        ret (-1)
      else execv cmd cmd_argv
  | _ => undefined
  end.

(** [launch_process] of the first revision. *)
Definition launch_process_v1 (v : fork_view) (t : tokens) : M unit :=
  pid <- fork v ;;
  if pid =? 0 then
    r <- execute_cmd_v1 t ;;
    if r =? -1 then
      printf diagnostic ;;
      exit 1
    else ret tt
  else
    wait ;;
    ret tt.

(* ------------------------------------------------------------------ *)
(** *** More vocabulary *)

(** The number of colons of a string. *)
Fixpoint colons (s : string) : nat :=
  match s with
  | EmptyString => O
  | String c r => if Ascii.eqb c ":"%char then S (colons r) else colons r
  end.

(** [m] ends by returning or in undefined behaviour, or, when [x] is set,
    by a successful [execv]: it neither exits nor blocks. *)
Definition calm {A} (x : bool) (m : M A) : Prop :=
  forall w, match m w with
            | Ret _ _ | Undefined _ => True
            | Replaced _ _ _ => x = true
            | Exited _ _ | Blocked _ => False
            end.

(** What the child does once [execute_cmd] has returned -1. *)
Definition bail_out : M unit :=
  printf diagnostic ;;
  exit 1.

(** The calls of the child between [fork] and [execute_cmd]. *)
Definition child_setup : list event :=
  [EvFork 0; EvSetpgid 0 0; EvSignal SIGINT SIG_DFL;
   EvSignal SIGTSTP SIG_DFL; EvSignal SIGTTOU SIG_DFL].

(* ------------------------------------------------------------------ *)
(** *** A shell started by a script *)

Module Scripted.

(** The shell, pid 3, runs in the process group of the script that started
    it, group 2, which owns the terminal; its child 8 will terminate. *)
Definition boot : World :=
  mk_World Sample.usual globals_zero 3 [(2, 2); (3, 2)] [] [8]
           (fun _ => SIG_DFL) Inherited Inherited
           (Some (mk_tty 2 Sample.cooked)) [].

Definition session : World := final (init_shell boot).

End Scripted.

(* ================================================================== *)
(** ** Built-in commands and the read loop *)

(** [cmd_fun_t *]: the four built-in functions. *)
Inductive cmd_fun := fun_help | fun_exit | fun_pwd | fun_cd.

(** [fun_desc_t] *)
Record fun_desc_t := mk_fun_desc
  { fn : cmd_fun; cmd_name : string; doc : string }.

(** [cmd_table] *)
Definition cmd_table : list fun_desc_t :=
  [ mk_fun_desc fun_help "?" "show this help menu";
    mk_fun_desc fun_exit "exit" "exit the command shell";
    mk_fun_desc fun_pwd "pwd" "print current working directory";
    mk_fun_desc fun_cd "cd" "change current working directory" ].

(** The loop of [lookup] from index [i] on: the first entry whose name
    [strcmp] finds equal to a non-null [cmd]. *)
Fixpoint lookup_from (i : Z) (table : list fun_desc_t) (cmd : option string)
  : Z :=
  match table with
  | [] => -1
  | d :: r =>
      match cmd with
      | Some c =>
          if CStr.streq (cmd_name d) c then i else lookup_from (i + 1) r cmd
      | None => lookup_from (i + 1) r cmd
      end
  end.

(** [lookup] *)
Definition lookup (cmd : option string) : Z := lookup_from 0 cmd_table cmd.

(** What the built-ins act on besides the [World]: the working directory of
    the process and its standard error. [fs_chdir cwd path] is the directory
    [chdir(path)] leads to from [cwd], if the call succeeds; [fs_getcwd cwd]
    is the string [getcwd(NULL, 0)] returns there, if it returns one. *)
Record Extra := mk_Extra
  { fs_chdir : string -> string -> option string;
    fs_getcwd : string -> option string;
    cwd : string;
    stderr : list string }.

(** [chdir(path)]; a null [path] makes the call fail. *)
Definition chdir (path : option string) (x : Extra) : Z * Extra :=
  match path with
  | None => (-1, x)
  | Some p =>
      match fs_chdir x (cwd x) p with
      | Some d => (0, mk_Extra (fs_chdir x) (fs_getcwd x) d (stderr x))
      | None => (-1, x)
      end
  end.

(** [getcwd(NULL, 0)] *)
Definition getcwd (x : Extra) : option string := fs_getcwd x (cwd x).

(** [perror(msg)]: a line on standard error that begins with [msg]. *)
Definition perror (msg : string) (x : Extra) : Extra :=
  mk_Extra (fs_chdir x) (fs_getcwd x) (cwd x) (stderr x ++ [msg]).

Definition newline : string := String "010"%char "".

(** [printf("%s\n", s)]; a null [s] is undefined. *)
Definition printf_line (s : option string) : M unit :=
  match s with
  | Some s => printf (s ++ newline)%string
  | None => undefined
  end.

(** [cmd_help], the loop over [table]. *)
Fixpoint help_lines (table : list fun_desc_t) : M unit :=
  match table with
  | [] => ret tt
  | d :: r =>
      printf (cmd_name d ++ " - " ++ doc d ++ newline)%string ;;
      help_lines r
  end.

Definition cmd_help (t : tokens) (x : Extra) : M (Z * Extra) :=
  help_lines cmd_table ;;
  ret (1, x).

(** [cmd_exit] *)
Definition cmd_exit (t : tokens) (x : Extra) : M (Z * Extra) := exit 0.

(** [cmd_pwd] *)
Definition cmd_pwd (t : tokens) (x : Extra) : M (Z * Extra) :=
  printf_line (getcwd x) ;;
  ret (1, x).

(** [char error_msg[128]] *)
Definition ERROR_MSG_SIZE : nat := 128.

(** [sprintf(error_msg, "cd: %s", target_dir)]: a null [target_dir] is
    undefined, and so is a result that does not fit [error_msg] with its
    terminating zero. *)
Definition sprintf_cd (target_dir : option string) : M string :=
  match target_dir with
  | None => undefined
  | Some d =>
      if (String.length ("cd: " ++ d)%string <? ERROR_MSG_SIZE)%nat
      then ret ("cd: " ++ d)%string
      else undefined
  end.

(** [cmd_cd] *)
Definition cmd_cd (t : tokens) (x : Extra) : M (Z * Extra) :=
  let target_dir := tokens_get_token t 1 in
  let (r, x) := chdir target_dir x in
  if r =? 0 then
    cmd_pwd t x ;;
    ret (1, x)
  else
    error_msg <- sprintf_cd target_dir ;;
    ret (1, perror error_msg x).

(** [cmd_table[fundex].fun(tokens)] *)
Definition call (f : cmd_fun) : tokens -> Extra -> M (Z * Extra) :=
  match f with
  | fun_help => cmd_help
  | fun_exit => cmd_exit
  | fun_pwd => cmd_pwd
  | fun_cd => cmd_cd
  end.

(** The head of the body of the loop of [main]: a built-in is called, any
    other line is launched; [v] is how the [fork] of that launch is seen. *)
Definition dispatch (v : fork_view) (t : tokens) (x : Extra) : M Extra :=
  let fundex := lookup (tokens_get_token t 0) in
  if fundex >=? 0 then
    match nth_error cmd_table (Z.to_nat fundex) with
    | Some d => r <- call (fn d) t x ;; ret (snd r)
    | None => undefined
    end
  else
    launch_process v t ;;
    ret x.

Definition INT_MAX : Z := 2147483647.

(** [fprintf(stdout, "%d: ", line_num)] *)
Definition prompt (line_num : Z) : M unit :=
  printf (NilZero.string_of_int (Z.to_int line_num) ++ ": ")%string.

(** The tail of the body: [if (shell_is_interactive) fprintf(stdout,
    "%d: ", ++line_num)]; incrementing an [int] past [INT_MAX] is
    undefined. The result is the new [line_num]. *)
Definition next_prompt (line_num : Z) : M Z :=
  interactive <- global shell_is_interactive ;;
  if interactive then
    if line_num <? INT_MAX then
      prompt (line_num + 1) ;;
      ret (line_num + 1)
    else undefined
  else ret line_num.

(** [while (fgets(line, 4096, stdin))] over the lines read, each given as
    its tokens with the view of the [fork] it may lead to; then
    [return 0]. *)
Fixpoint main_loop (lines : list (tokens * fork_view)) (line_num : Z)
         (x : Extra) : M Z :=
  match lines with
  | [] => ret 0
  | (t, v) :: rest =>
      x <- dispatch v t x ;;
      line_num <- next_prompt line_num ;;
      main_loop rest line_num x
  end.

(** [main] *)
Definition main (lines : list (tokens * fork_view)) (x : Extra) : M Z :=
  init_shell ;;
  interactive <- global shell_is_interactive ;;
  (if interactive then prompt 0 else ret tt) ;;
  main_loop lines 0 x.


(* ------------------------------------------------------------------ *)
(** *** A small directory tree *)

Module Tree.

(** Two directories, [/] and [/tmp]; [chdir] accepts the names ["/"],
    ["/tmp"] and, from [/], ["tmp"]. *)
Definition enter (cwd path : string) : option string :=
  if String.eqb path "/" then Some "/"
  else if String.eqb path "/tmp" then Some "/tmp"
  else if String.eqb cwd "/" && String.eqb path "tmp" then Some "/tmp"
  else None.

Definition at_root : Extra := mk_Extra enter (fun d => Some d) "/" [].

End Tree.

(** [w'] is [w] after further calls, each satisfying [P], with the globals
    of shell.c as they were. *)
Definition keeps (P : event -> Prop) (w w' : World) : Prop :=
  glob w' = glob w /\ exists evs, trace w' = trace w ++ evs /\ Forall P evs.

(** The views of [fork] in the shell itself. *)
Definition in_shell (v : fork_view) : Prop :=
  match v with
  | ForkFailed => True
  | InParent cpid => cpid <> 0
  | InChild _ => False
  end.

(** However [m] ends, it has only made calls that satisfy [P] and left the
    globals alone. *)
Definition keeping {A} (P : event -> Prop) (m : M A) : Prop :=
  forall w, keeps P w (final (m w)).

(* ================================================================== *)
(** * Properties *)

(** ** The monad *)

Lemma bind_Ret {A B} (m : M A) (k : A -> M B) w a w' :
  m w = Ret a w' -> bind m k w = k a w'.
Proof. unfold bind; intros ->; reflexivity. Qed.

Lemma bind_ret_l {A B} (a : A) (k : A -> M B) w : bind (ret a) k w = k a w.
Proof. reflexivity. Qed.

Lemma bind_assoc {A B C} (m : M A) (k : A -> M B) (h : B -> M C) w :
  bind (bind m k) h w = bind m (fun a => bind (k a) h) w.
Proof. unfold bind; destruct (m w); reflexivity. Qed.

Lemma trace_emit e w : trace (emit e w) = trace w ++ [e].
Proof. reflexivity. Qed.

Lemma trace_emits evs : forall w, trace (emits evs w) = trace w ++ evs.
Proof.
  induction evs as [|e evs IH]; intros w; simpl.
  - now rewrite app_nil_r.
  - unfold emits in IH. rewrite IH, trace_emit, <- app_assoc. reflexivity.
Qed.

Lemma emits_app l1 l2 w : emits (l1 ++ l2) w = emits l2 (emits l1 w).
Proof. unfold emits. apply fold_left_app. Qed.

(** ** C strings *)

Lemma streq_true a b : CStr.streq a b = true <-> a = b.
Proof. apply String.eqb_eq. Qed.

Lemma streq_false a b : CStr.streq a b = false <-> a <> b.
Proof. apply String.eqb_neq. Qed.

Lemma streq_sym a b : CStr.streq a b = CStr.streq b a.
Proof. apply String.eqb_sym. Qed.

(** [fields] lists what repeated [strsep] calls return. *)
Lemma fields_strsep s :
  CStr.fields s =
  fst (CStr.strsep_str s) :: CStr.strsep_all (snd (CStr.strsep_str s)).
Proof.
  induction s as [|c r IH]; simpl; [reflexivity|].
  destruct (Ascii.eqb c ":"%char); simpl; [reflexivity|].
  rewrite IH. destruct (CStr.strsep_str r) as [t rest]; reflexivity.
Qed.

Lemma strsep_all_step p :
  CStr.strsep_all p =
  match CStr.strsep p with
  | (Some each_dir, p') => each_dir :: CStr.strsep_all p'
  | (None, _) => []
  end.
Proof.
  destruct p as [s|]; simpl; [|reflexivity].
  rewrite fields_strsep. destruct (CStr.strsep_str s); reflexivity.
Qed.

Lemma strsep_all_unset : CStr.strsep_all None = [].
Proof. reflexivity. Qed.

Lemma strsep_all_empty : CStr.strsep_all (Some EmptyString) = [EmptyString].
Proof. reflexivity. Qed.

(** ** Argument vectors *)

Lemma build_argv_map t : build_argv t = map Some t ++ [None].
Proof.
  unfold build_argv, tokens_get_length, tokens_get_token. f_equal.
  induction t as [|a r IH]; simpl; [reflexivity|].
  f_equal. rewrite <- seq_shift, map_map. exact IH.
Qed.

Lemma exec_args_cut l r : exec_args (map Some l ++ None :: r) = l.
Proof. induction l as [|a l IH]; simpl; congruence. Qed.

Lemma exec_args_build t : exec_args (build_argv t) = t.
Proof. rewrite build_argv_map. apply exec_args_cut. Qed.

Lemma slot_app_some l r : slot (map Some l ++ r) (length l) = slot r 0.
Proof. unfold slot. induction l; simpl; auto. Qed.

Lemma slot_app_next l x r :
  slot (map Some l ++ x :: r) (length l + 1) = slot r 0.
Proof. unfold slot. induction l; simpl; auto. Qed.

Lemma store_app l x r v :
  store (map Some l ++ x :: r) (length l) v = map Some l ++ v :: r.
Proof. induction l as [|a l IH]; simpl; congruence. Qed.

Lemma store_store argv v v' : store (store argv 0 v) 0 v' = store argv 0 v'.
Proof. destruct argv; reflexivity. Qed.

Lemma store_same argv v : slot argv 0 = Some v -> store argv 0 v = argv.
Proof. destruct argv; simpl; congruence. Qed.

Lemma exec_args_store0 argv cmd p :
  slot argv 0 = Some (Some cmd) ->
  exec_args (store argv 0 (Some p)) = p :: tl (exec_args argv).
Proof.
  destruct argv as [|[a|] r]; simpl; try discriminate. reflexivity.
Qed.

Lemma needs_redirection_false t :
  program_needs_io_redirection t = false <-> args_before is_redirect t = t.
Proof.
  induction t as [|a r IH]; simpl; [tauto|].
  change (CStr.streq a "<" || CStr.streq a ">") with (is_redirect a).
  destruct (is_redirect a).
  - split; discriminate.
  - rewrite IH. split; [intros ->; reflexivity | congruence].
Qed.

Lemma needs_background_false t :
  program_needs_put_in_background t = false <->
  args_before is_background t = t.
Proof.
  induction t as [|a r IH]; simpl; [tauto|].
  change (CStr.streq a "&") with (is_background a).
  destruct (is_background a).
  - split; discriminate.
  - rewrite IH. split; [intros ->; reflexivity | congruence].
Qed.

Lemma needs_background_In t :
  program_needs_put_in_background t = true <-> In "&"%string t.
Proof.
  induction t as [|a r IH]; simpl; [split; [discriminate | tauto]|].
  destruct (CStr.streq a "&") eqn:E.
  - apply streq_true in E. tauto.
  - apply streq_false in E. rewrite IH. split; [tauto|].
    intros [H|H]; [congruence | exact H].
Qed.

(** A line that needs redirection splits at its first operator. *)
Lemma first_redirect_split t :
  program_needs_io_redirection t = true ->
  exists pre op post,
    t = pre ++ op :: post /\
    program_needs_io_redirection pre = false /\
    is_redirect op = true.
Proof.
  induction t as [|a r IH]; simpl; [discriminate|].
  destruct (CStr.streq a "<" || CStr.streq a ">") eqn:E; intros H.
  - exists [], a, r. auto.
  - destruct (IH H) as (pre & op & post & -> & Hp & Ho).
    exists (a :: pre), op, post. simpl. rewrite E. auto.
Qed.

Lemma args_before_split stop pre op post :
  args_before stop pre = pre -> stop op = true ->
  args_before stop (pre ++ op :: post) = pre.
Proof.
  induction pre as [|a r IH]; simpl; intros H Ho.
  - now rewrite Ho.
  - destruct (stop a); [discriminate|]. f_equal. apply IH; congruence.
Qed.

(** Removing the background marker cuts what the program receives at the
    first ["&"]. *)
Lemma exec_args_remove_flag argv :
  exec_args (cmd_line_remove_put_process_in_background_flag argv) =
  args_before is_background (exec_args argv).
Proof.
  induction argv as [|[a|] r IH]; simpl; try reflexivity.
  change (CStr.streq a "&") with (is_background a).
  destruct (is_background a); simpl; congruence.
Qed.

Lemma args_before_marker t :
  args_before is_background (args_before is_redirect t) =
  args_before is_marker t.
Proof.
  induction t as [|a r IH]; simpl; [reflexivity|].
  unfold is_marker at 1. destruct (is_redirect a); simpl; [reflexivity|].
  destruct (is_background a); simpl; [reflexivity|]. now rewrite IH.
Qed.

Lemma args_before_prefix stop t : is_prefix (args_before stop t) t.
Proof.
  induction t as [|a r [x IH]]; simpl.
  - exists []. reflexivity.
  - destruct (stop a).
    + exists (a :: r). reflexivity.
    + exists x. simpl. congruence.
Qed.

Lemma args_before_clean stop t a :
  In a (args_before stop t) -> stop a = false.
Proof.
  induction t as [|b r IH]; simpl; [tauto|].
  destruct (stop b) eqn:E; simpl; [tauto|].
  intros [<-|H]; auto.
Qed.

(** The slot of the command name is only ever overwritten with null. *)
Lemma remove_flag_slot0 argv cmd :
  slot (cmd_line_remove_put_process_in_background_flag argv) 0
  = Some (Some cmd) ->
  slot argv 0 = Some (Some cmd).
Proof.
  destruct argv as [|[a|] r]; simpl; auto.
  destruct (CStr.streq a "&"); simpl; auto. discriminate.
Qed.

(** ** Calls and what they leave alone *)

Lemma step_weaken (P Q : event -> Prop) w w' :
  (forall e, P e -> Q e) -> step P w w' -> step Q w w'.
Proof.
  intros H (a1 & a2 & a3 & a4 & a5 & a6 & a7 & e1 & He1 & F1).
  unfold step; repeat split; auto.
  exists e1; split; auto. eapply Forall_impl; eauto.
Qed.

Lemma runs_weaken {A} (P P' : event -> Prop) (Q Q' : A -> Prop) m :
  (forall e, P e -> P' e) -> (forall a, Q a -> Q' a) ->
  runs P Q m -> runs P' Q' m.
Proof.
  intros HP HQ H w. destruct (H w) as [Hs Hq].
  split; [eapply step_weaken; eauto | eauto].
Qed.

Create HintDb calls.

Section Calls.

Variable P : event -> Prop.

Lemma step_refl w : step P w w.
Proof.
  unfold step; repeat split; try reflexivity.
  exists []. now rewrite app_nil_r.
Qed.

Lemma step_trans w1 w2 w3 : step P w1 w2 -> step P w2 w3 -> step P w1 w3.
Proof.
  intros (a1 & a2 & a3 & a4 & a5 & a6 & a7 & e1 & He1 & F1)
         (b1 & b2 & b3 & b4 & b5 & b6 & b7 & e2 & He2 & F2).
  unfold step; repeat split; try congruence.
  exists (e1 ++ e2). split.
  - rewrite He2, He1, app_assoc. reflexivity.
  - apply Forall_app; auto.
Qed.

Lemma step_emit e w : P e -> step P w (emit e w).
Proof.
  intros H. unfold step; simpl; repeat split.
  exists [e]. auto.
Qed.

Lemma step_set_fd0 b w w' : step P w w' -> step P w (set_fd0 b w').
Proof. unfold step; simpl; tauto. Qed.

Lemma step_set_fd1 b w w' : step P w w' -> step P w (set_fd1 b w').
Proof. unfold step; simpl; tauto. Qed.

Hint Resolve step_refl step_emit step_set_fd0 step_set_fd1 : calls.

Lemma runs_ret {A} (Q : A -> Prop) a : Q a -> runs P Q (ret a).
Proof.
  intros H w. split; [auto with calls|].
  unfold ret; intros ? ? [= <- <-]; exact H.
Qed.

Lemma runs_bind {A B} (Q : A -> Prop) (R : B -> Prop) (m : M A) (k : A -> M B) :
  runs P Q m -> (forall a, Q a -> runs P R (k a)) -> runs P R (bind m k).
Proof.
  intros Hm Hk w. destruct (Hm w) as [Hs Hq]. unfold bind.
  destruct (m w) as [a w0|? ? w0|? w0|w0|w0] eqn:E; simpl in *;
    try (split; [exact Hs | discriminate]).
  destruct (Hk a (Hq a w0 eq_refl) w0) as [Hs' Hq'].
  split; [eapply step_trans; eauto | exact Hq'].
Qed.

Lemma runs_undefined {A} (Q : A -> Prop) : runs P Q undefined.
Proof. intros w. split; [auto with calls | discriminate]. Qed.

Lemma runs_fopen path m :
  (forall p ok, P (EvFopen p m ok)) -> runs P (fun _ => True) (fopen path m).
Proof.
  intros H w. unfold fopen. destruct path as [p|]; simpl;
    (split; [auto with calls | auto]).
Qed.

Lemma runs_fileno file : runs P (fun _ : FILE => True) (fileno file).
Proof.
  intros w. unfold fileno. destruct file; simpl; split; auto with calls.
Qed.

Lemma runs_dup2 f fd :
  P (EvDup2 f fd) -> runs P (fun _ => True) (dup2 f fd).
Proof.
  intros H w. unfold dup2.
  destruct (fd =? STDIN_FILENO); [|destruct (fd =? STDOUT_FILENO)]; simpl;
    (split; [auto with calls | auto]).
Qed.

Lemma runs_execv path argv :
  P (EvExecv path argv) -> runs P (fun r => r = -1) (execv path argv).
Proof.
  intros H w. unfold execv. destruct (can_exec (env w) path); simpl;
    (split; [auto with calls | congruence]).
Qed.

Lemma runs_build_full_path each_dir cmd :
  runs P (fun s => s = candidate cmd each_dir) (build_full_path each_dir cmd).
Proof.
  intros w. unfold build_full_path.
  destruct (_ <? _)%nat; simpl; (split; [auto with calls|]).
  - intros ? ? [= <- <-]. reflexivity.
  - discriminate.
Qed.

Lemma runs_getenv : runs P (fun _ => True) getenv_PATH.
Proof. intros w. split; [apply step_refl | auto]. Qed.

End Calls.

(** ** [process_redirects_io] *)

(** One round of the loop. *)
Lemma redirects_from_unfold n i argv :
  process_redirects_io_from (S n) i argv =
  match slot argv i with
  | Some (Some a) =>
      if CStr.streq "<" a then
        file <- fopen (match slot argv (i + 1) with
                       | Some p => p
                       | None => None
                       end) mode_r ;;
        f <- fileno file ;;
        dup2 f STDIN_FILENO ;;
        ret (store argv i None)
      else if CStr.streq ">" a then
        file <- fopen (match slot argv (i + 1) with
                       | Some p => p
                       | None => None
                       end) mode_w ;;
        f <- fileno file ;;
        dup2 f STDOUT_FILENO ;;
        ret (store argv i None)
      else process_redirects_io_from n (S i) argv
  | _ => undefined
  end.
Proof. reflexivity. Qed.

Lemma redirects_skip pre : forall lead n rest,
  program_needs_io_redirection pre = false ->
  process_redirects_io_from (length pre + n) (length lead)
                            (map Some (lead ++ pre) ++ rest) =
  process_redirects_io_from n (length (lead ++ pre))
                            (map Some (lead ++ pre) ++ rest).
Proof.
  induction pre as [|a r IH]; intros lead n rest H.
  - rewrite app_nil_r. reflexivity.
  - simpl in H.
    destruct (CStr.streq a "<") eqn:E1; [discriminate|].
    destruct (CStr.streq a ">") eqn:E2; [discriminate|]. simpl in H.
    change (length (a :: r) + n)%nat with (S (length r + n)).
    rewrite redirects_from_unfold.
    replace (lead ++ a :: r) with ((lead ++ [a]) ++ r)
      by (rewrite <- app_assoc; reflexivity).
    replace (slot (map Some ((lead ++ [a]) ++ r) ++ rest) (length lead))
      with (Some (Some a)).
    2:{ rewrite <- app_assoc. simpl. rewrite map_app, <- app_assoc.
        rewrite slot_app_some. reflexivity. }
    rewrite (streq_sym "<" a), E1, (streq_sym ">" a), E2.
    rewrite <- (IH (lead ++ [a]) n rest H).
    f_equal. rewrite length_app. simpl. lia.
Qed.

Lemma slot_operand l op post :
  match slot (map Some l ++ Some op :: map Some post ++ [None])
             (length l + 1) with
  | Some p => p
  | None => None
  end = hd_error post.
Proof.
  rewrite slot_app_next. destruct post; reflexivity.
Qed.

(** On a line whose first redirection operator is [op], the whole call is
    the handling of that operator: one [fopen] of the token that follows,
    one [dup2], one null written over the operator. *)
Lemma redirects_at_first pre op post :
  program_needs_io_redirection pre = false ->
  is_redirect op = true ->
  process_redirects_io (tokens_get_length (pre ++ op :: post))
                       (build_argv (pre ++ op :: post)) =
  (file <- fopen (hd_error post)
                 (if CStr.streq "<" op then mode_r else mode_w) ;;
   f <- fileno file ;;
   dup2 f (if CStr.streq "<" op then STDIN_FILENO else STDOUT_FILENO) ;;
   ret (map Some pre ++ None :: map Some post ++ [None])).
Proof.
  intros Hpre Hop. unfold process_redirects_io, tokens_get_length.
  rewrite build_argv_map, length_app. simpl length.
  rewrite map_app. simpl map. rewrite <- app_assoc. simpl app.
  pose proof (redirects_skip pre [] (S (length post))
                (Some op :: map Some post ++ [None]) Hpre) as H.
  cbn [app length] in H. rewrite H. clear H.
  rewrite redirects_from_unfold, slot_app_some. cbn [slot nth_error].
  rewrite slot_operand, store_app.
  unfold is_redirect in Hop. rewrite (streq_sym "<" op).
  destruct (CStr.streq op "<"); [reflexivity|].
  rewrite (streq_sym ">" op). simpl in Hop. rewrite Hop. reflexivity.
Qed.

Lemma redirects_runs (P : event -> Prop) t :
  (forall e, is_execv e = false -> P e) ->
  runs P (fun argv => exec_args argv = args_before is_redirect t /\
                      (forall cmd, slot argv 0 = Some (Some cmd) ->
                                   hd_error t = Some cmd))
       (if program_needs_io_redirection t
        then process_redirects_io (tokens_get_length t) (build_argv t)
        else ret (build_argv t)).
Proof.
  intros HP. destruct (program_needs_io_redirection t) eqn:E.
  - destruct (first_redirect_split t E) as (pre & op & post & -> & Hpre & Hop).
    rewrite (redirects_at_first pre op post Hpre Hop).
    eapply runs_bind; [apply runs_fopen; intros; apply HP; reflexivity|].
    intros file _.
    eapply runs_bind; [apply runs_fileno|]. intros f _.
    eapply runs_bind; [apply runs_dup2; apply HP; reflexivity|]. intros _ _.
    apply runs_ret. split.
    + rewrite exec_args_cut. symmetry. apply args_before_split; auto.
      now apply needs_redirection_false.
    + destruct pre; simpl; [discriminate | congruence].
  - apply runs_ret. split.
    + rewrite exec_args_build. symmetry. now apply needs_redirection_false.
    + rewrite build_argv_map. destruct t; simpl; [discriminate | congruence].
Qed.

(** ** The two parts of [execute_cmd] *)

Lemma execute_cmd_split t w :
  execute_cmd t w = bind (strip_phase t) resolve_phase w.
Proof.
  unfold execute_cmd, strip_phase, resolve_phase.
  rewrite bind_assoc. reflexivity.
Qed.

Lemma strip_phase_runs (P : event -> Prop) t :
  (forall e, is_execv e = false -> P e) ->
  runs P (fun argv => exec_args argv = args_before is_marker t /\
                      (forall cmd, slot argv 0 = Some (Some cmd) ->
                                   hd_error t = Some cmd))
       (strip_phase t).
Proof.
  intros HP. unfold strip_phase.
  eapply runs_bind; [apply (redirects_runs P t HP)|].
  intros argv [Ha Hs]. apply runs_ret.
  destruct (program_needs_put_in_background t) eqn:E.
  - split.
    + rewrite exec_args_remove_flag, Ha. apply args_before_marker.
    + intros cmd H. apply Hs. now apply remove_flag_slot0.
  - split; [|exact Hs].
    rewrite Ha, <- args_before_marker.
    apply needs_background_false in E.
    (* no "&" in t, hence none in a prefix of t *)
    clear - E. induction t as [|a r IH]; simpl in *; [reflexivity|].
    destruct (is_background a) eqn:Eb; [discriminate|].
    destruct (is_redirect a); simpl; [reflexivity|].
    rewrite Eb. f_equal. apply IH. congruence.
Qed.

(** ** The resolution loop *)

Lemma resolve_loop_unfold each_dir rest cmd_argv cmd :
  slot cmd_argv 0 = Some (Some cmd) ->
  resolve_loop (each_dir :: rest) cmd_argv =
  (full_path_cmd <- build_full_path each_dir cmd ;;
   execv full_path_cmd (store cmd_argv 0 (Some full_path_cmd)) ;;
   resolve_loop rest
     (store (store cmd_argv 0 (Some full_path_cmd)) 0 (Some cmd))).
Proof. intros H. cbn [resolve_loop]. rewrite H. reflexivity. Qed.

(** Whatever happens, the loop only calls [execv], on candidates of the
    directories it was given, and leaves the array as it found it. *)
Lemma resolve_loop_runs dirs : forall argv cmd,
  slot argv 0 = Some (Some cmd) ->
  runs (fun e => exists d, In d dirs /\ e = attempt argv cmd d)
       (fun a => a = argv)
       (resolve_loop dirs argv).
Proof.
  induction dirs as [|d rest IH]; intros argv cmd H.
  - apply runs_ret. reflexivity.
  - rewrite (resolve_loop_unfold d rest argv cmd H).
    eapply runs_bind; [apply (runs_build_full_path _ d cmd)|].
    intros full ->.
    eapply runs_bind.
    { apply runs_execv. exists d. split; [left; reflexivity | reflexivity]. }
    intros _ _. rewrite store_store, (store_same argv (Some cmd) H).
    eapply runs_weaken; [| |apply (IH argv cmd H)]; auto.
    intros e (d' & Hd & ->). exists d'. split; [right; exact Hd | reflexivity].
Qed.

Lemma env_emits evs : forall w, env (emits evs w) = env w.
Proof.
  induction evs as [|e evs IH]; intros w; simpl; [reflexivity|].
  unfold emits in IH. now rewrite IH.
Qed.

(** When the candidates that come to be tried fit the buffer, the loop is
    the search for the first candidate [execv] can run. *)
Lemma resolve_loop_fits dirs : forall argv cmd w,
  slot argv 0 = Some (Some cmd) ->
  Forall (fits cmd) (tried (env w) cmd dirs) ->
  resolve_loop dirs argv w =
  match winner (env w) cmd dirs with
  | Some d =>
      Replaced (candidate cmd d) (candidate cmd d :: tl (exec_args argv))
               (emits (map (attempt argv cmd) (tried (env w) cmd dirs)) w)
  | None =>
      Ret argv (emits (map (attempt argv cmd) (tried (env w) cmd dirs)) w)
  end.
Proof.
  induction dirs as [|d rest IH]; intros argv cmd w H HF; [reflexivity|].
  rewrite (resolve_loop_unfold d rest argv cmd H).
  simpl winner. simpl tried in *.
  assert (Hd : fits cmd d)
    by (destruct (can_exec (env w) (candidate cmd d)); now inversion HF).
  unfold bind at 1. unfold build_full_path.
  change ((d ++ "/" ++ cmd)%string) with (candidate cmd d).
  apply Nat.ltb_lt in Hd. rewrite Hd.
  unfold bind at 1. unfold execv.
  destruct (can_exec (env w) (candidate cmd d)) eqn:E.
  - rewrite (exec_args_store0 argv cmd _ H). reflexivity.
  - rewrite store_store, (store_same argv (Some cmd) H).
    inversion HF as [|? ? _ HF']; subst.
    apply (IH argv cmd (emit (attempt argv cmd d) w) H HF').
Qed.

Lemma resolve_phase_runs t argv :
  exec_args argv = args_before is_marker t ->
  runs (exec_shape t) (fun r => r = -1) (resolve_phase argv).
Proof.
  intros Ha. unfold resolve_phase.
  destruct (slot argv 0) as [[cmd|]|] eqn:Hs; try apply runs_undefined.
  assert (Hhd : hd_error (args_before is_marker t) = Some cmd).
  { rewrite <- Ha. destruct argv as [|[a|] r]; simpl in *; congruence. }
  destruct (cmd_needs_path_resolution cmd) eqn:Hn.
  - eapply runs_bind; [apply runs_getenv|]. intros path_env _.
    eapply runs_bind.
    + eapply runs_weaken; [| |apply (resolve_loop_runs _ argv cmd Hs)].
      * intros e (d & _ & ->). unfold attempt, exec_shape.
        rewrite (exec_args_store0 argv cmd _ Hs), Ha. split; [reflexivity|].
        exists cmd. repeat split; auto; [congruence | intros _; now exists d].
      * intros a H; exact H.
    + intros _ _. apply runs_ret. reflexivity.
  - apply runs_execv. unfold exec_shape. split.
    + rewrite <- Ha. destruct argv as [|[a|] r]; simpl in *; congruence.
    + exists cmd. repeat split; auto. congruence.
Qed.

(** [execute_cmd] never touches the process table, the signal dispositions,
    the globals or the terminal; all its [execv] calls have the shape
    [exec_shape]; and when it returns, it returns -1. *)
Lemma execute_cmd_runs t :
  runs (exec_shape t) (fun r => r = -1) (execute_cmd t).
Proof.
  intros w. rewrite execute_cmd_split. revert w.
  change (runs (exec_shape t) (fun r => r = -1)
               (bind (strip_phase t) resolve_phase)).
  eapply runs_bind.
  - apply (strip_phase_runs (exec_shape t) t).
    intros [] H; simpl in *; auto; discriminate.
  - intros argv [Ha _]. now apply resolve_phase_runs.
Qed.

(** ** The argument vector handed to [execv] *)

Lemma tl_prefix (l t : list string) : is_prefix l t -> is_prefix (tl l) (tl t).
Proof.
  intros [r ->]. destruct l as [|a l]; simpl.
  - exists (tl r). reflexivity.
  - exists r. reflexivity.
Qed.





(** ** The child before [execv] *)

Lemma pgid_of_none ps c :
  pgid_of ps c = None <-> forall e, In e ps -> fst e <> c.
Proof.
  unfold pgid_of. split.
  - destruct (find _ ps) eqn:E; [discriminate|]. intros _ e He.
    pose proof (find_none _ _ E e He) as H. simpl in H.
    now apply Z.eqb_neq.
  - intros H. destruct (find _ ps) as [e|] eqn:E; [|reflexivity].
    apply find_some in E. destruct E as [Hi He].
    apply Z.eqb_eq in He. exfalso. exact (H e Hi He).
Qed.

Lemma pgid_of_fresh ps c g :
  pgid_of ps c = None -> pgid_of (ps ++ [(c, g)]) c = Some g.
Proof.
  intros H. rewrite pgid_of_none in H. unfold pgid_of.
  induction ps as [|e ps IH]; simpl.
  - now rewrite Z.eqb_refl.
  - destruct (fst e =? c) eqn:E.
    + apply Z.eqb_eq in E. exfalso. apply (H e); simpl; auto.
    + apply IH. intros e' He'. apply H. simpl; auto.
Qed.

Lemma pgid_set_fresh ps c g g' :
  pgid_of ps c = None -> pgid_set (ps ++ [(c, g)]) c g' = ps ++ [(c, g')].
Proof.
  intros H. rewrite pgid_of_none in H. unfold pgid_set.
  rewrite map_app. simpl. rewrite Z.eqb_refl. f_equal.
  induction ps as [|e ps IH]; simpl; [reflexivity|].
  destruct (fst e =? c) eqn:E.
  - apply Z.eqb_eq in E. exfalso. apply (H e); simpl; auto.
  - f_equal. apply IH. intros e' He'. apply H. simpl; auto.
Qed.

Lemma group_members_app ps qs g :
  group_members (ps ++ qs) g = group_members ps g ++ group_members qs g.
Proof. unfold group_members. now rewrite filter_app, map_app. Qed.

(** The child's side of [launch_process] up to [execute_cmd]. *)
Lemma launch_child_setup cpid t w :
  pgid_of (procs w) cpid = None ->
  exists w5,
    launch_process (InChild cpid) t w =
    bind (execute_cmd t)
         (fun r => if r =? -1 then printf diagnostic ;; exit 1 else ret tt) w5 /\
    trace w5 = trace w ++ [EvFork 0; EvSetpgid 0 0; EvSignal SIGINT SIG_DFL;
                           EvSignal SIGTSTP SIG_DFL; EvSignal SIGTTOU SIG_DFL] /\
    self w5 = cpid /\
    procs w5 = procs w ++ [(cpid, cpid)] /\
    (forall s, handlers w5 s = SIG_DFL) /\
    fd0 w5 = fd0 w /\ fd1 w5 = fd1 w /\ env w5 = env w.
Proof.
  intros Hfresh.
  unfold launch_process.
  unfold bind at 1. unfold fork.
  unfold bind at 1. unfold setpgid. simpl.
  rewrite (pgid_of_fresh _ _ (parent_group w) Hfresh), Z.eqb_refl. simpl.
  rewrite (pgid_set_fresh _ _ _ cpid Hfresh).
  unfold init_child_process.
  repeat (unfold bind at 1; unfold signal at 1; simpl).
  eexists. split; [reflexivity|]. simpl.
  repeat rewrite <- app_assoc. simpl.
  repeat split; auto. intros []; reflexivity.
Qed.

(** C7: in the child, [launch_process] first calls [setpgid(0, 0)] and
    resets SIGINT, SIGTSTP and SIGTTOU to [SIG_DFL], then runs
    [execute_cmd], whose [execv] calls therefore all come later. From then
    on, and in whatever way the child ends, the child is the only member of
    the process group numbered by its own pid, and the three dispositions
    are the default ones, whatever they were in the shell. The child's pid is
    new: no process and no group bears it when [fork] returns. *)
Theorem child_group_and_signals (cpid : Z) (t : tokens) (w : World) :
  pgid_of (procs w) cpid = None ->
  group_members (procs w) cpid = [] ->
  exists evs,
    trace (final (launch_process (InChild cpid) t w)) =
    trace w ++ [EvFork 0; EvSetpgid 0 0; EvSignal SIGINT SIG_DFL;
                EvSignal SIGTSTP SIG_DFL; EvSignal SIGTTOU SIG_DFL] ++ evs /\
    Forall (exec_shape t) evs /\
    self (final (launch_process (InChild cpid) t w)) = cpid /\
    pgid_of (procs (final (launch_process (InChild cpid) t w))) cpid
    = Some cpid /\
    group_members (procs (final (launch_process (InChild cpid) t w))) cpid
    = [cpid] /\
    handlers (final (launch_process (InChild cpid) t w)) SIGINT = SIG_DFL /\
    handlers (final (launch_process (InChild cpid) t w)) SIGTSTP = SIG_DFL /\
    handlers (final (launch_process (InChild cpid) t w)) SIGTTOU = SIG_DFL.
Proof.
  intros Hfresh Hgroup.
  destruct (launch_child_setup cpid t w Hfresh)
    as (w5 & -> & Ht & Hs & Hp & Hh & _).
  destruct (execute_cmd_runs t w5) as [Hstep Hq].
  destruct Hstep as (Hself & Hprocs & Hhand & _ & _ & _ & _ & evs & He & HF).
  assert (Hg : group_members (procs w ++ [(cpid, cpid)]) cpid = [cpid]).
  { rewrite group_members_app, Hgroup. unfold group_members. simpl.
    now rewrite Z.eqb_refl. }
  assert (Hpg : pgid_of (procs w ++ [(cpid, cpid)]) cpid = Some cpid)
    by (apply pgid_of_fresh, Hfresh).
  unfold bind.
  destruct (execute_cmd t w5) as [r w6|p a w6|s w6|w6|w6] eqn:E;
    simpl in Hself, Hprocs, Hhand, He.
  1: { rewrite (Hq r w6 eq_refl). simpl.
       exists (evs ++ [EvPrintf diagnostic; EvExit 1]).
       rewrite He, Ht, Hself, Hprocs, Hhand, Hs, Hp, !Hh.
       repeat rewrite <- app_assoc. simpl.
       repeat split; auto.
       apply Forall_app. split; [exact HF|]. repeat constructor. }
  all: exists evs; simpl;
    rewrite He, Ht, Hself, Hprocs, Hhand, Hs, Hp, !Hh;
    repeat rewrite <- app_assoc; simpl; repeat split; auto.
Qed.

Lemma child_group_and_signals_witness :
  pgid_of (procs (Sample.interactive Sample.usual)) 8 = None /\
  group_members (procs (Sample.interactive Sample.usual)) 8 = [] /\
  handlers (Sample.interactive Sample.usual) SIGINT = SIG_IGN /\
  group_members
    (procs (final (launch_process (InChild 8) ["foo"; "x"]
                     (Sample.interactive Sample.usual)))) 8 = [8] /\
  handlers (final (launch_process (InChild 8) ["foo"; "x"]
                     (Sample.interactive Sample.usual))) SIGINT = SIG_DFL.
Proof.
  split; [reflexivity|]. split; [reflexivity|]. split; [reflexivity|].
  destruct (child_group_and_signals 8 ["foo"; "x"]
              (Sample.interactive Sample.usual) eq_refl eq_refl)
    as (evs & _ & _ & _ & _ & Hg & Hi & _).
  split; [exact Hg | exact Hi].
Defined.

(** ** The parent: background jobs *)




(** ** The parent: foreground jobs *)

Lemma next_exit_child kids order c rest :
  next_exit kids order = Some (c, rest) -> In c kids.
Proof.
  induction order as [|x r IH]; simpl; [discriminate|].
  destruct (is_child x kids) eqn:E; [|exact IH].
  intros [= <- <-]. unfold is_child in E.
  apply existsb_exists in E. destruct E as (q & Hq & He).
  apply Z.eqb_eq in He. now subst q.
Qed.

Lemma group_exists_In ps p g : In (p, g) ps -> group_exists ps g = true.
Proof.
  intros H. unfold group_exists. apply existsb_exists.
  exists (p, g). split; [exact H | apply Z.eqb_refl].
Qed.

Lemma remove_proc_In c ps p g :
  In (p, g) ps -> p <> c -> In (p, g) (remove_proc c ps).
Proof.
  intros H Hne. unfold remove_proc. apply filter_In. split; [exact H|].
  simpl. apply negb_true_iff. now apply Z.eqb_neq.
Qed.

(** The part of the foreground protocol that holds in every interactive
    session: one hand-over of the terminal to the job's group, one [wait],
    which returns for the child [c] that terminates first, then the terminal
    goes back to [shell_pgid] and its modes to [shell_tmodes], whatever the
    jobs made of them. *)
Lemma foreground_cycle (pid : Z) (t : tokens) (w : World) (ty : tty)
      (c : Z) (rest : list Z) :
  0 < pid ->
  ~ In "&"%string t ->
  shell_terminal (glob w) = STDIN_FILENO ->
  term w = Some ty ->
  pgid_of (procs w) pid = None ->
  In (self w, shell_pgid (glob w)) (procs w) ->
  ~ In (self w) (children w) ->
  next_exit (children w ++ [pid]) (exit_order w) = Some (c, rest) ->
  result_of (launch_process (InParent pid) t w) = Returns tt /\
  trace (final (launch_process (InParent pid) t w)) =
  trace w ++ [EvFork pid; EvSetpgid pid pid; EvTcsetpgrp 0 pid; EvWait c;
              EvTcsetpgrp 0 (shell_pgid (glob w));
              EvTcsetattr 0 (shell_tmodes (glob w))] /\
  term (final (launch_process (InParent pid) t w)) =
  Some (mk_tty (shell_pgid (glob w)) (shell_tmodes (glob w))) /\
  children (final (launch_process (InParent pid) t w)) =
  remove_pid c (children w ++ [pid]).
Proof.
  intros Hpos Hfg Hfd Hterm Hfresh Hself Hkid Hnext.
  assert (Hbg : program_needs_put_in_background t = false).
  { destruct (program_needs_put_in_background t) eqn:E; [|reflexivity].
    apply needs_background_In in E. contradiction. }
  assert (Hne : (pid =? 0) = false) by (apply Z.eqb_neq; lia).
  assert (Hlt : (pid <? 0) = false) by (apply Z.ltb_ge; lia).
  assert (Hc : self w <> c).
  { intros <-. apply next_exit_child in Hnext. apply in_app_or in Hnext.
    destruct Hnext as [H|[H|[]]]; [contradiction|].
    rewrite pgid_of_none in Hfresh. apply (Hfresh _ Hself). simpl. auto. }
  assert (Hg1 : group_exists (procs w ++ [(pid, pid)]) pid = true).
  { apply (group_exists_In _ pid). apply in_or_app. right. simpl. auto. }
  assert (Hg2 : group_exists (remove_proc c (procs w ++ [(pid, pid)]))
                             (shell_pgid (glob w)) = true).
  { apply (group_exists_In _ (self w)). apply remove_proc_In; [|exact Hc].
    apply in_or_app. left. exact Hself. }
  unfold launch_process, bind, fork, setpgid. simpl.
  rewrite Hne, Hlt. simpl.
  rewrite (pgid_of_fresh _ _ (parent_group w) Hfresh), Z.eqb_refl. simpl.
  rewrite (pgid_set_fresh _ _ _ pid Hfresh), Hbg.
  unfold put_process_in_foreground, bind, global, tcsetpgrp, wait, tcsetattr.
  unfold STDIN_FILENO in Hfd.
  simpl. rewrite !Hfd, Hterm. simpl. rewrite Hg1. simpl.
  destruct (children w ++ [pid]) as [|k ks] eqn:Ek.
  { destruct (children w); discriminate. }
  rewrite Hnext. simpl. rewrite Hg2. simpl.
  repeat (rewrite !Hfd; simpl).
  repeat rewrite <- app_assoc. simpl. auto.
Qed.

(** C1 at a failing input. A background child, pid 7, is still running when
    the line [sleep 100] is launched as child 8, and child 7 terminates
    first. [wait(NULL)] returns for child 7: the shell takes the terminal
    back and returns while child 8, its foreground job, has not terminated
    and is still to be waited for. *)
Lemma foreground_wait_returns_for_other_child :
  result_of (launch_process (InParent 8) ["sleep"; "100"]
               (Sample.with_children [7] [7; 8]
                  (Sample.interactive Sample.usual))) = Returns tt /\
  trace (final (launch_process (InParent 8) ["sleep"; "100"]
                  (Sample.with_children [7] [7; 8]
                     (Sample.interactive Sample.usual))))
  = [EvFork 8; EvSetpgid 8 8; EvTcsetpgrp 0 8; EvWait 7;
     EvTcsetpgrp 0 3; EvTcsetattr 0 Sample.cooked] /\
  children (final (launch_process (InParent 8) ["sleep"; "100"]
                     (Sample.with_children [7] [7; 8]
                        (Sample.interactive Sample.usual)))) = [8] /\
  term (final (launch_process (InParent 8) ["sleep"; "100"]
                 (Sample.with_children [7] [7; 8]
                    (Sample.interactive Sample.usual))))
  = Some (mk_tty 3 Sample.cooked).
Proof. repeat split; reflexivity. Qed.

(** C8 at a failing input. Standard input is not a terminal; [init_shell],
    which guards its terminal calls with [shell_is_interactive], makes none
    and leaves the globals zero. Launching [ls] in the foreground then calls
    [tcsetpgrp] twice and [tcsetattr] once all the same, with the zero
    [shell_pgid] and [shell_tmodes]; the calls fail, there being no terminal
    to act on. *)
Lemma batch_launch_makes_terminal_calls :
  shell_is_interactive (glob (Sample.batch Sample.usual)) = false /\
  filter is_terminal_call (trace (Sample.batch Sample.usual)) = [] /\
  trace (final (launch_process (InParent 8) ["ls"]
                  (Sample.with_children [] [8] (Sample.batch Sample.usual))))
  = [EvFork 8; EvSetpgid 8 8; EvTcsetpgrp 0 8; EvWait 8;
     EvTcsetpgrp 0 0; EvTcsetattr 0 termios_zero] /\
  term (final (launch_process (InParent 8) ["ls"]
                 (Sample.with_children [] [8] (Sample.batch Sample.usual))))
  = None.
Proof. repeat split; reflexivity. Qed.

(** C9 at a failing input. [fork] returns -1. Nothing is printed; the
    parent's branch runs with pid -1: [setpgid(-1, -1)], then, the line
    having no ["&"], the terminal is offered to group -1, [wait] is called
    for a child that does not exist, and the terminal is taken back. *)
Lemma fork_failure_is_not_handled :
  trace (final (launch_process ForkFailed ["ls"]
                  (Sample.interactive Sample.usual)))
  = [EvFork (-1); EvSetpgid (-1) (-1); EvTcsetpgrp 0 (-1); EvWait (-1);
     EvTcsetpgrp 0 3; EvTcsetattr 0 Sample.cooked] /\
  filter is_printf
    (trace (final (launch_process ForkFailed ["ls"]
                     (Sample.interactive Sample.usual)))) = [] /\
  result_of (launch_process ForkFailed ["ls"]
               (Sample.interactive Sample.usual)) = Returns tt.
Proof. repeat split; reflexivity. Qed.

(** C4 at a failing input. The file named after ["<"] cannot be opened:
    [fopen] returns null, and the next call, [fileno(file)], dereferences
    it. The child prints nothing and does not call [exit]: its behaviour is
    undefined from there on. *)
Lemma redirection_open_failure_is_undefined :
  can_read Sample.usual "missing.txt" = false /\
  result_of (launch_process (InChild 8) ["cat"; "<"; "missing.txt"]
               (Sample.interactive Sample.usual)) = Undef /\
  trace (final (launch_process (InChild 8) ["cat"; "<"; "missing.txt"]
                  (Sample.interactive Sample.usual)))
  = [EvFork 0; EvSetpgid 0 0; EvSignal SIGINT SIG_DFL;
     EvSignal SIGTSTP SIG_DFL; EvSignal SIGTTOU SIG_DFL;
     EvFopen "missing.txt" mode_r false] /\
  filter is_printf
    (trace (final (launch_process (InChild 8) ["cat"; "<"; "missing.txt"]
                     (Sample.interactive Sample.usual)))) = [].
Proof. repeat split; reflexivity. Qed.

(** ** Path resolution *)

(** [execute_cmd] from the point where the array is ready. *)
Lemma execute_cmd_resolve t w argv w1 cmd :
  strip_phase t w = Ret argv w1 ->
  slot argv 0 = Some (Some cmd) ->
  env w1 = env w /\
  execute_cmd t w =
  (if cmd_needs_path_resolution cmd
   then resolve_loop (CStr.strsep_all (env_PATH (env w))) argv ;; ret (-1)
   else execv cmd argv) w1.
Proof.
  intros Hs H0.
  assert (He : env w1 = env w).
  { destruct (strip_phase_runs (fun _ => True) t (fun _ _ => I) w)
      as [(_ & _ & _ & _ & He & _) _].
    rewrite Hs in He. exact He. }
  split; [exact He|].
  rewrite execute_cmd_split, (bind_Ret _ _ _ _ _ Hs).
  unfold resolve_phase. rewrite H0.
  destruct (cmd_needs_path_resolution cmd); [|reflexivity].
  unfold bind at 1. unfold getenv_PATH. rewrite He. reflexivity.
Qed.

Lemma tried_winner e cmd dirs :
  match winner e cmd dirs with
  | Some d =>
      exists pre post,
        dirs = pre ++ d :: post /\ tried e cmd dirs = pre ++ [d] /\
        Forall (fun x => can_exec e (candidate cmd x) = false) pre /\
        can_exec e (candidate cmd d) = true
  | None =>
      tried e cmd dirs = dirs /\
      Forall (fun x => can_exec e (candidate cmd x) = false) dirs
  end.
Proof.
  induction dirs as [|d rest IH]; simpl; [auto|].
  destruct (can_exec e (candidate cmd d)) eqn:E.
  - exists [], rest. auto.
  - destruct (winner e cmd rest) as [d'|].
    + destruct IH as (pre & post & -> & -> & HF & Hc).
      exists (d :: pre), post. auto.
    + destruct IH as [-> HF]. auto.
Qed.

(** C3, as stated, fails for the empty string: [strsep] finds one field in
    it, the empty one, so with [PATH=""] there is one candidate, ["/foo"],
    and it is executed. *)
Lemma empty_PATH_has_one_candidate :
  CStr.strsep_all (Some "") = [""] /\
  cmd_needs_path_resolution "foo" = true /\
  trace (final (execute_cmd ["foo"]
                  (Sample.interactive (Sample.files (Some "") ["/foo"]))))
  = [EvExecv "/foo" [Some "/foo"; None]] /\
  result_of (execute_cmd ["foo"]
               (Sample.interactive (Sample.files (Some "") ["/foo"])))
  = Execs "/foo" ["/foo"].
Proof. repeat split; reflexivity. Qed.

(** C3, amended: for every bare command name, if [PATH] is unset the loop
    has no candidate and [execute_cmd] returns -1 without a single [execv]
    call. If [PATH] is the empty string there is exactly one candidate,
    built from the empty directory: ["/" + cmd] is handed to [execv] (the
    name being short enough for the buffer), and [execute_cmd] returns -1
    only if that call fails. *)
Theorem resolution_unset_or_empty_PATH
  (t : tokens) (w : World) (argv : argv_t) (w1 : World) (cmd : string) :
  strip_phase t w = Ret argv w1 ->
  slot argv 0 = Some (Some cmd) ->
  cmd_needs_path_resolution cmd = true ->
  (env_PATH (env w) = None ->
   CStr.strsep_all (env_PATH (env w)) = [] /\
   execute_cmd t w = Ret (-1) w1) /\
  (env_PATH (env w) = Some ""%string ->
   (String.length cmd < 255)%nat ->
   CStr.strsep_all (env_PATH (env w)) = [""%string] /\
   execute_cmd t w =
   (execv (candidate cmd "") (store argv 0 (Some (candidate cmd ""))) ;;
    ret (-1)) w1).
Proof.
  intros Hs H0 Hbare.
  destruct (execute_cmd_resolve t w argv w1 cmd Hs H0) as [He ->].
  rewrite Hbare. split.
  - intros ->. split; reflexivity.
  - intros -> Hlen. split; [reflexivity|].
    cbn [CStr.strsep_all CStr.fields].
    rewrite (resolve_loop_unfold _ _ argv cmd H0).
    unfold bind at 1. unfold bind at 1. unfold build_full_path.
    change (("" ++ "/" ++ cmd)%string) with (candidate cmd "").
    assert (Hfit : (String.length (candidate cmd "") <? FULL_PATH_CMD_SIZE)%nat
                   = true).
    { apply Nat.ltb_lt. unfold candidate, FULL_PATH_CMD_SIZE. simpl. lia. }
    rewrite Hfit. unfold bind.
    destruct (execv _ _ w1); reflexivity.
Qed.

Lemma resolution_unset_or_empty_PATH_witness :
  (strip_phase ["foo"; "x"] (Sample.interactive (Sample.files None ["/foo"]))
   = Ret [Some "foo"; Some "x"; None]
         (Sample.interactive (Sample.files None ["/foo"])) /\
   cmd_needs_path_resolution "foo" = true /\
   env_PATH (env (Sample.interactive (Sample.files None ["/foo"]))) = None /\
   execute_cmd ["foo"; "x"] (Sample.interactive (Sample.files None ["/foo"]))
   = Ret (-1) (Sample.interactive (Sample.files None ["/foo"]))) /\
  (env_PATH (env (Sample.interactive (Sample.files (Some "") ["/foo"])))
   = Some ""%string /\
   (String.length "foo" < 255)%nat /\
   execute_cmd ["foo"; "x"]
               (Sample.interactive (Sample.files (Some "") ["/foo"]))
   = (execv "/foo" [Some "/foo"; Some "x"; None] ;; ret (-1))
       (Sample.interactive (Sample.files (Some "") ["/foo"]))).
Proof.
  assert (Hlen : (String.length "foo" < 255)%nat) by (simpl; lia).
  split.
  - split; [reflexivity|]. split; [reflexivity|]. split; [reflexivity|].
    apply (resolution_unset_or_empty_PATH ["foo"; "x"]
             (Sample.interactive (Sample.files None ["/foo"]))
             [Some "foo"; Some "x"; None]
             (Sample.interactive (Sample.files None ["/foo"])) "foo");
      reflexivity.
  - split; [reflexivity|]. split; [exact Hlen|].
    apply (resolution_unset_or_empty_PATH ["foo"; "x"]
             (Sample.interactive (Sample.files (Some "") ["/foo"]))
             [Some "foo"; Some "x"; None]
             (Sample.interactive (Sample.files (Some "") ["/foo"])) "foo"
             eq_refl eq_refl eq_refl);
      [reflexivity | exact Hlen].
Defined.

(** C6 fails where a candidate does not fit [full_path_cmd]: the buffer
    has 256 bytes and the loop builds [dir + "/" + cmd] in it with [strcpy]
    and [strcat], without a look at the lengths. With [PATH] a directory of
    260 letters followed by [/bin], where [/bin/ls] can be run, the line
    [ls] ends in undefined behaviour at the first candidate: no [execv] is
    tried, [/bin/ls], the second candidate in [PATH] order, is never
    reached. A bare name of 300 letters, with [PATH=/a:/b], overruns the
    buffer in the same way. *)
Lemma long_candidate_overruns_buffer :
  cmd_needs_path_resolution "ls" = true /\
  CStr.strsep_all (env_PATH Sample.deep) = [Sample.letters 260; "/bin"] /\
  can_exec Sample.deep (candidate "ls" "/bin") = true /\
  result_of (execute_cmd ["ls"] (Sample.interactive Sample.deep)) = Undef /\
  trace (final (execute_cmd ["ls"] (Sample.interactive Sample.deep))) = [] /\
  cmd_needs_path_resolution (Sample.letters 300) = true /\
  result_of (execute_cmd [Sample.letters 300]
               (Sample.interactive Sample.usual)) = Undef /\
  trace (final (execute_cmd [Sample.letters 300]
                  (Sample.interactive Sample.usual))) = [].
Proof. repeat split; vm_compute; reflexivity. Qed.

(** X24: resolution within the buffer. For every bare command name whose
    candidates, as far as they come to be tried, fit the 256 bytes of
    [full_path_cmd], the directories are the fields of [PATH] between
    colons, in order; [execv] is called on [dir + "/" + cmd] for each in
    turn, with the array of the line in which only slot 0 is replaced by
    that candidate, up to the first call that succeeds; after a call that
    fails slot 0 is the original name again, and when all fail the loop
    leaves the array as it found it and [execute_cmd] returns -1. A name
    with a path separator is handed to [execv] as it is, with the array
    unchanged, and [PATH] is not looked at. *)
Theorem path_resolution_in_order
  (t : tokens) (w : World) (argv : argv_t) (w1 : World) (cmd : string) :
  strip_phase t w = Ret argv w1 ->
  slot argv 0 = Some (Some cmd) ->
  (cmd_needs_path_resolution cmd = true ->
   Forall (fits cmd)
          (tried (env w) cmd (CStr.strsep_all (env_PATH (env w)))) ->
   resolve_loop (CStr.strsep_all (env_PATH (env w))) argv w1 =
   match winner (env w) cmd (CStr.strsep_all (env_PATH (env w))) with
   | Some d =>
       Replaced (candidate cmd d) (candidate cmd d :: tl (exec_args argv))
         (emits (map (attempt argv cmd)
                     (tried (env w) cmd (CStr.strsep_all (env_PATH (env w)))))
                w1)
   | None =>
       Ret argv
         (emits (map (attempt argv cmd) (CStr.strsep_all (env_PATH (env w))))
                w1)
   end /\
   execute_cmd t w =
   match winner (env w) cmd (CStr.strsep_all (env_PATH (env w))) with
   | Some d =>
       Replaced (candidate cmd d) (candidate cmd d :: tl (exec_args argv))
         (emits (map (attempt argv cmd)
                     (tried (env w) cmd (CStr.strsep_all (env_PATH (env w)))))
                w1)
   | None =>
       Ret (-1)
         (emits (map (attempt argv cmd) (CStr.strsep_all (env_PATH (env w))))
                w1)
   end) /\
  (cmd_needs_path_resolution cmd = false ->
   execute_cmd t w = execv cmd argv w1).
Proof.
  intros Hs H0.
  destruct (execute_cmd_resolve t w argv w1 cmd Hs H0) as [He ->].
  split.
  - intros -> HF. rewrite <- He in HF.
    pose proof (resolve_loop_fits _ argv cmd w1 H0 HF) as HL.
    rewrite He in HL.
    pose proof (tried_winner (env w) cmd
                  (CStr.strsep_all (env_PATH (env w)))) as HT.
    unfold bind. rewrite HL.
    destruct (winner (env w) cmd (CStr.strsep_all (env_PATH (env w)))).
    + split; reflexivity.
    + destruct HT as [-> _]. split; reflexivity.
  - intros ->. reflexivity.
Qed.

Lemma path_resolution_in_order_witness :
  strip_phase ["foo"; "x"] (Sample.interactive Sample.usual)
  = Ret [Some "foo"; Some "x"; None] (Sample.interactive Sample.usual) /\
  cmd_needs_path_resolution "foo" = true /\
  CStr.strsep_all (env_PATH (env (Sample.interactive Sample.usual)))
  = ["/a"; "/b"] /\
  tried Sample.usual "foo" ["/a"; "/b"] = ["/a"; "/b"] /\
  Forall (fits "foo") ["/a"; "/b"] /\
  can_exec Sample.usual "/a/foo" = false /\
  execute_cmd ["foo"; "x"] (Sample.interactive Sample.usual)
  = Replaced "/b/foo" ["/b/foo"; "x"]
      (emits [EvExecv "/a/foo" [Some "/a/foo"; Some "x"; None];
              EvExecv "/b/foo" [Some "/b/foo"; Some "x"; None]]
             (Sample.interactive Sample.usual)).
Proof.
  assert (HF : Forall (fits "foo") ["/a"; "/b"]).
  { repeat constructor; unfold fits, FULL_PATH_CMD_SIZE; simpl; lia. }
  split; [reflexivity|]. split; [reflexivity|]. split; [reflexivity|].
  split; [reflexivity|]. split; [exact HF|]. split; [reflexivity|].
  destruct (path_resolution_in_order ["foo"; "x"]
              (Sample.interactive Sample.usual)
              [Some "foo"; Some "x"; None]
              (Sample.interactive Sample.usual) "foo" eq_refl eq_refl)
    as [H _].
  destruct (H eq_refl HF) as [_ ->]. reflexivity.
Defined.

(** ** Redirection *)

Lemma operand_of_needs op t x :
  is_redirect op = true -> operand_of op t = Some x ->
  program_needs_io_redirection t = true.
Proof.
  intros Hop. induction t as [|a r IH]; simpl; [discriminate|].
  destruct (CStr.streq a op) eqn:E.
  - apply streq_true in E. subst a. intros _.
    change (CStr.streq op "<" || CStr.streq op ">") with (is_redirect op).
    now rewrite Hop.
  - intros H. destruct (CStr.streq a "<" || CStr.streq a ">"); auto.
Qed.

Lemma operand_of_split op pre post :
  is_redirect op = true ->
  program_needs_io_redirection pre = false ->
  operand_of op (pre ++ op :: post) = hd_error post.
Proof.
  intros Hop. induction pre as [|a r IH]; simpl; intros H.
  - unfold CStr.streq. now rewrite String.eqb_refl.
  - change (CStr.streq a "<" || CStr.streq a ">") with (is_redirect a) in H.
    destruct (is_redirect a) eqn:Ea; [discriminate|].
    destruct (CStr.streq a op) eqn:E; [|auto].
    apply streq_true in E. congruence.
Qed.

Lemma first_redirect_at pre op post :
  program_needs_io_redirection pre = false ->
  is_redirect op = true ->
  first_redirect (pre ++ op :: post) = Some op.
Proof.
  intros H Hop. induction pre as [|a r IH]; simpl.
  - now rewrite Hop.
  - simpl in H.
    change (CStr.streq a "<" || CStr.streq a ">") with (is_redirect a) in H.
    destruct (is_redirect a); [discriminate | auto].
Qed.

Lemma no_redirect_in pre a :
  program_needs_io_redirection pre = false -> In a pre -> is_redirect a = false.
Proof.
  intros H Hin. apply needs_redirection_false in H. rewrite <- H in Hin.
  eapply args_before_clean; eauto.
Qed.

Lemma is_redirect_cases op :
  is_redirect op = true -> op = "<"%string \/ op = ">"%string.
Proof.
  unfold is_redirect. intros H. apply orb_true_iff in H.
  destruct H as [H|H]; apply streq_true in H; auto.
Qed.

(** C2, as stated, fails: on [sort < in.txt > out.txt] only the first
    operator is handled. When [sort] is started its standard input is
    [in.txt], and its standard output is still the inherited one. *)
Lemma second_redirection_is_ignored :
  count_occ string_dec ["sort"; "<"; "in.txt"; ">"; "out.txt"] "<" = 1%nat /\
  count_occ string_dec ["sort"; "<"; "in.txt"; ">"; "out.txt"] ">" = 1%nat /\
  operand_of "<" ["sort"; "<"; "in.txt"; ">"; "out.txt"] = Some "in.txt" /\
  operand_of ">" ["sort"; "<"; "in.txt"; ">"; "out.txt"] = Some "out.txt" /\
  result_of (execute_cmd ["sort"; "<"; "in.txt"; ">"; "out.txt"]
               (Sample.interactive (Sample.files (Some "/a") ["/a/sort"])))
  = Execs "/a/sort" ["/a/sort"] /\
  fd0 (final (execute_cmd ["sort"; "<"; "in.txt"; ">"; "out.txt"]
                (Sample.interactive (Sample.files (Some "/a") ["/a/sort"]))))
  = ToFile "in.txt" mode_r /\
  fd1 (final (execute_cmd ["sort"; "<"; "in.txt"; ">"; "out.txt"]
                (Sample.interactive (Sample.files (Some "/a") ["/a/sort"]))))
  = Inherited.
Proof. repeat split; reflexivity. Qed.

(** C2, amended: for every command line with a ["<"] and a [">"] token whose
    files can be opened, [process_redirects_io] handles the one of the two
    that comes first and no other: if it is ["<"], standard input is rebound
    to the file named after it, opened for reading, and standard output is
    left alone; if it is [">"], standard output is rebound to the file named
    after it, opened with mode "w", and standard input is left alone. The
    array it leaves reads, up to its null slot, as the tokens in front of
    that first operator: it holds neither operator and neither operand, and
    what [execute_cmd] then hands to [execv] is, after the path in slot 0,
    a prefix of it. *)
Theorem redirection_first_operator_only
  (t : tokens) (w : World) (inf outf : string) :
  operand_of "<" t = Some inf ->
  operand_of ">" t = Some outf ->
  can_read (env w) inf = true ->
  can_write (env w) outf = true ->
  exists argv w' op file rest,
    process_redirects_io (tokens_get_length t) (build_argv t) w = Ret argv w' /\
    first_redirect t = Some op /\
    t = exec_args argv ++ op :: file :: rest /\
    ~ In "<"%string (exec_args argv) /\
    ~ In ">"%string (exec_args argv) /\
    (op = "<"%string \/ op = ">"%string) /\
    (op = "<"%string ->
     file = inf /\
     fd0 w' = ToFile inf mode_r /\ fd1 w' = fd1 w /\
     trace w' = trace w ++ [EvFopen inf mode_r true;
                            EvDup2 (inf, mode_r) STDIN_FILENO]) /\
    (op = ">"%string ->
     file = outf /\
     fd1 w' = ToFile outf mode_w /\ fd0 w' = fd0 w /\
     trace w' = trace w ++ [EvFopen outf mode_w true;
                            EvDup2 (outf, mode_w) STDOUT_FILENO]) /\
    exists evs,
      trace (final (execute_cmd t w)) = trace w ++ evs /\
      forall path a, In (EvExecv path a) evs ->
        is_prefix (tl (exec_args a)) (tl (exec_args argv)).
Proof.
  intros Hin Hout Hr Hw.
  assert (Hneed : program_needs_io_redirection t = true)
    by (eapply (operand_of_needs "<"); eauto).
  destruct (first_redirect_split t Hneed)
    as (pre & op & post & -> & Hpre & Hop).
  assert (Hclean : forall a, In a pre -> is_redirect a = false)
    by (intros a; now apply no_redirect_in).
  assert (Hno1 : ~ In "<"%string pre)
    by (intros H; apply Hclean in H; discriminate).
  assert (Hno2 : ~ In ">"%string pre)
    by (intros H; apply Hclean in H; discriminate).
  assert (Hexec : exists evs,
             trace (final (execute_cmd (pre ++ op :: post) w)) = trace w ++ evs /\
             forall path a, In (EvExecv path a) evs ->
               is_prefix (tl (exec_args a)) (tl pre)).
  { destruct (execute_cmd_runs (pre ++ op :: post) w)
      as [(_ & _ & _ & _ & _ & _ & _ & evs & He & HF) _].
    exists evs. split; [exact He|]. intros path a Ha.
    rewrite Forall_forall in HF. destruct (HF _ Ha) as [-> _]. simpl tl.
    rewrite <- args_before_marker.
    rewrite (args_before_split is_redirect pre op post); auto.
    - apply tl_prefix, args_before_prefix.
    - now apply needs_redirection_false. }
  rewrite (redirects_at_first pre op post Hpre Hop).
  rewrite (first_redirect_at pre op post Hpre Hop).
  destruct (is_redirect_cases op Hop) as [-> | ->].
  - rewrite (operand_of_split "<" pre post eq_refl Hpre) in Hin.
    destruct post as [|file rest]; [discriminate|].
    simpl in Hin. injection Hin as ->.
    eexists _, _, "<"%string, inf, rest.
    split.
    { unfold bind, fopen, fileno, dup2. simpl. rewrite Hr. reflexivity. }
    rewrite exec_args_cut.
    split; [reflexivity|]. split; [reflexivity|].
    split; [exact Hno1|]. split; [exact Hno2|]. split; [auto|].
    split; [|split; [discriminate | exact Hexec]]. intros _.
    simpl. rewrite <- app_assoc. auto.
  - rewrite (operand_of_split ">" pre post eq_refl Hpre) in Hout.
    destruct post as [|file rest]; [discriminate|].
    simpl in Hout. injection Hout as ->.
    eexists _, _, ">"%string, outf, rest.
    split.
    { unfold bind, fopen, fileno, dup2. simpl. rewrite Hw. reflexivity. }
    rewrite exec_args_cut.
    split; [reflexivity|]. split; [reflexivity|].
    split; [exact Hno1|]. split; [exact Hno2|]. split; [auto|].
    split; [discriminate|]. split; [|exact Hexec]. intros _.
    simpl. rewrite <- app_assoc. auto.
Qed.

Lemma redirection_first_operator_only_witness :
  operand_of "<" ["sort"; "<"; "in.txt"; ">"; "out.txt"] = Some "in.txt" /\
  operand_of ">" ["sort"; "<"; "in.txt"; ">"; "out.txt"] = Some "out.txt" /\
  can_read Sample.usual "in.txt" = true /\
  can_write Sample.usual "out.txt" = true /\
  exists argv w',
    process_redirects_io 5 (build_argv ["sort"; "<"; "in.txt"; ">"; "out.txt"])
                         (Sample.interactive Sample.usual) = Ret argv w' /\
    exec_args argv = ["sort"] /\
    fd0 w' = ToFile "in.txt" mode_r /\ fd1 w' = Inherited.
Proof.
  split; [reflexivity|]. split; [reflexivity|].
  split; [reflexivity|]. split; [reflexivity|].
  destruct (redirection_first_operator_only
              ["sort"; "<"; "in.txt"; ">"; "out.txt"]
              (Sample.interactive Sample.usual) "in.txt" "out.txt"
              eq_refl eq_refl eq_refl eq_refl)
    as (argv & w' & op & file & rest & Hrun & Hfirst & Ht & Hno & _ & _ & Hlt & _).
  injection Hfirst as <-.
  destruct (Hlt eq_refl) as (_ & H0 & H1 & _).
  exists argv, w'. split; [exact Hrun|].
  split; [|split; [exact H0 | exact H1]].
  clear - Ht Hno. destruct (exec_args argv) as [|a [|b l]]; simpl in Ht.
  - discriminate.
  - injection Ht as <-. reflexivity.
  - exfalso. apply Hno. injection Ht as _ Hb _. rewrite <- Hb. simpl. auto.
Defined.

(* ================================================================== *)
(** * Further properties *)

(** ** Names and [PATH] *)

Lemma has_char_split c s :
  CStr.has_char c s = true <-> exists a b, s = (a ++ String c b)%string.
Proof.
  induction s as [|d r IH]; simpl.
  - split; [discriminate|]. intros (a & b & H). destruct a; discriminate.
  - destruct (Ascii.eqb d c) eqn:E.
    + apply Ascii.eqb_eq in E. subst d. split; [|reflexivity].
      intros _. exists EmptyString, r. reflexivity.
    + apply Ascii.eqb_neq in E. rewrite IH. split.
      * intros (a & b & ->). exists (String d a), b. reflexivity.
      * intros (a & b & H). destruct a as [|x a]; simpl in H.
        -- injection H as H _. congruence.
        -- injection H as _ H. exists a, b. exact H.
Qed.

(** X1: a command name is looked up on [PATH] exactly when it has no ['/']
    anywhere: a slash in any position, leading, inner or trailing, makes
    the shell hand the name to [execv] as it is. *)
Theorem needs_resolution_iff_no_slash (cmd : string) :
  cmd_needs_path_resolution cmd = false <->
  exists a b, cmd = (a ++ "/" ++ b)%string.
Proof.
  unfold cmd_needs_path_resolution. rewrite negb_false_iff.
  apply has_char_split.
Qed.

Lemma fields_nonempty s : CStr.fields s <> [].
Proof.
  destruct s as [|c r]; simpl; [discriminate|].
  destruct (Ascii.eqb c ":"%char); [discriminate|].
  destruct (CStr.fields r); discriminate.
Qed.

Lemma concat_cons sep x l :
  l <> [] -> String.concat sep (x :: l) = (x ++ sep ++ String.concat sep l)%string.
Proof. destruct l; [congruence | reflexivity]. Qed.

(** X2: the directories the resolution loop goes through are the fields of
    [PATH] between its colons: joined again with [":"] they give [PATH]
    back, none of them contains a colon, and there is one more of them than
    [PATH] has colons. So an empty [PATH], a leading or trailing colon and a
    doubled colon each contribute an empty directory. *)
Theorem path_fields_round_trip (path : string) :
  String.concat ":" (CStr.strsep_all (Some path)) = path /\
  Forall (fun d => CStr.has_char ":"%char d = false)
         (CStr.strsep_all (Some path)) /\
  length (CStr.strsep_all (Some path)) = S (colons path).
Proof.
  unfold CStr.strsep_all.
  induction path as [|c r IH]; simpl.
  - repeat split. repeat constructor.
  - destruct IH as (IH1 & IH2 & IH3).
    destruct (Ascii.eqb c ":"%char) eqn:E.
    + apply Ascii.eqb_eq in E. subst c.
      rewrite (concat_cons ":" "" _ (fields_nonempty r)), IH1.
      repeat split; simpl; auto.
    + pose proof (fields_nonempty r) as Hne.
      destruct (CStr.fields r) as [|d ds]; [congruence|].
      apply Forall_cons_iff in IH2. destruct IH2 as [Hd Hds].
      repeat split.
      * destruct ds as [|d' ds].
        -- simpl in *. congruence.
        -- rewrite (concat_cons ":" (String c d)) by discriminate.
           rewrite (concat_cons ":" d) in IH1 by discriminate.
           cbn [append]. f_equal. exact IH1.
      * constructor; [simpl; now rewrite E | exact Hds].
      * exact IH3.
Qed.

(** ** How computations end *)

Section Calm.

Variable x : bool.

Lemma calm_ret {A} (a : A) : calm x (ret a).
Proof. intros w. exact I. Qed.

Lemma calm_undefined {A} : calm x (@undefined A).
Proof. intros w. exact I. Qed.

Lemma calm_bind {A B} (m : M A) (k : A -> M B) :
  calm x m -> (forall a, calm x (k a)) -> calm x (bind m k).
Proof.
  intros Hm Hk w. specialize (Hm w). unfold bind.
  destruct (m w); auto. apply Hk.
Qed.

Lemma calm_fopen path m : calm x (fopen path m).
Proof. intros w. unfold fopen. destruct path; exact I. Qed.

Lemma calm_fileno file : calm x (fileno file).
Proof. intros w. unfold fileno. destruct file; exact I. Qed.

Lemma calm_dup2 f fd : calm x (dup2 f fd).
Proof.
  intros w. unfold dup2.
  destruct (fd =? STDIN_FILENO); [|destruct (fd =? STDOUT_FILENO)]; exact I.
Qed.

Lemma calm_build_full_path each_dir cmd : calm x (build_full_path each_dir cmd).
Proof. intros w. unfold build_full_path. destruct (_ <? _)%nat; exact I. Qed.

Lemma calm_getenv : calm x getenv_PATH.
Proof. intros w. exact I. Qed.

Lemma calm_redirects n : forall i argv,
  calm x (process_redirects_io_from n i argv).
Proof.
  induction n as [|n IH]; intros i argv; [apply calm_ret|].
  rewrite redirects_from_unfold.
  destruct (slot argv i) as [[a|]|]; try apply calm_undefined.
  destruct (CStr.streq "<" a); [|destruct (CStr.streq ">" a)]; [| |apply IH];
    (apply calm_bind; [apply calm_fopen|]; intros file;
     apply calm_bind; [apply calm_fileno|]; intros f;
     apply calm_bind; [apply calm_dup2|]; intros _; apply calm_ret).
Qed.

Lemma calm_strip_phase t : calm x (strip_phase t).
Proof.
  unfold strip_phase. apply calm_bind; [|intros; apply calm_ret].
  destruct (program_needs_io_redirection t);
    [apply calm_redirects | apply calm_ret].
Qed.

End Calm.

Lemma calm_execv path argv : calm true (execv path argv).
Proof. intros w. unfold execv. destruct (can_exec (env w) path); simpl; auto. Qed.

Lemma calm_resolve_loop dirs : forall argv, calm true (resolve_loop dirs argv).
Proof.
  induction dirs as [|d rest IH]; intros argv; [apply calm_ret|].
  cbn [resolve_loop].
  destruct (slot argv 0) as [[cmd|]|]; try apply calm_undefined.
  apply calm_bind; [apply calm_build_full_path|]. intros full.
  apply calm_bind; [apply calm_execv|]. intros _. apply IH.
Qed.

Lemma calm_resolve_phase argv : calm true (resolve_phase argv).
Proof.
  unfold resolve_phase.
  destruct (slot argv 0) as [[cmd|]|]; try apply calm_undefined.
  destruct (cmd_needs_path_resolution cmd); [|apply calm_execv].
  apply calm_bind; [apply calm_getenv|]. intros p.
  apply calm_bind; [apply calm_resolve_loop|]. intros _. apply calm_ret.
Qed.

Lemma calm_execute_cmd t : calm true (execute_cmd t).
Proof.
  intros w. rewrite execute_cmd_split. revert w.
  change (calm true (bind (strip_phase t) resolve_phase)).
  apply calm_bind; [apply calm_strip_phase | apply calm_resolve_phase].
Qed.

(** ** The two revisions *)

Lemma marker_free_needs t :
  (forall a, In a t -> is_marker a = false) ->
  program_needs_io_redirection t = false /\
  program_needs_put_in_background t = false.
Proof.
  induction t as [|a r IH]; intros H; simpl; [auto|].
  assert (Ha : is_marker a = false) by (apply H; simpl; auto).
  unfold is_marker in Ha. apply orb_false_iff in Ha. destruct Ha as [Hr Hb].
  change (CStr.streq a "<" || CStr.streq a ">") with (is_redirect a).
  change (CStr.streq a "&") with (is_background a).
  rewrite Hr, Hb. apply IH. intros b Hb'. apply H. simpl; auto.
Qed.

(** X3: on a line without a ["<"], [">"] or ["&"] token, [execute_cmd] of
    the second revision does exactly what [execute_cmd] of the first
    revision did: same calls, same outcome, same final state. *)
Theorem execute_cmd_agrees_with_first_revision (t : tokens) (w : World) :
  (forall a, In a t -> is_marker a = false) ->
  execute_cmd t w = execute_cmd_v1 t w.
Proof.
  intros H. destruct (marker_free_needs t H) as [Hr Hb].
  unfold execute_cmd, execute_cmd_v1. rewrite Hr, Hb. reflexivity.
Qed.

Lemma execute_cmd_agrees_with_first_revision_witness :
  (forall a, In a ["foo"; "x"] -> is_marker a = false) /\
  execute_cmd ["foo"; "x"] (Sample.interactive Sample.usual)
  = execute_cmd_v1 ["foo"; "x"] (Sample.interactive Sample.usual).
Proof.
  assert (H : forall a, In a ["foo"; "x"] -> is_marker a = false)
    by (intros a [<-|[<-|[]]]; reflexivity).
  split; [exact H|].
  apply (execute_cmd_agrees_with_first_revision
           ["foo"; "x"] (Sample.interactive Sample.usual) H).
Defined.

Lemma resolve_phase_passes_array argv :
  runs (fun e => match e with
                 | EvExecv path a => exec_args a = path :: tl (exec_args argv)
                 | _ => True
                 end)
       (fun r => r = -1) (resolve_phase argv).
Proof.
  unfold resolve_phase.
  destruct (slot argv 0) as [[cmd|]|] eqn:Hs; try apply runs_undefined.
  destruct (cmd_needs_path_resolution cmd).
  - eapply runs_bind; [apply runs_getenv|]. intros path_env _.
    eapply runs_bind.
    + eapply runs_weaken; [| |apply (resolve_loop_runs _ argv cmd Hs)].
      * intros e (d & _ & ->). unfold attempt.
        apply (exec_args_store0 argv cmd _ Hs).
      * intros a H; exact H.
    + intros _ _. apply runs_ret. reflexivity.
  - apply runs_execv.
    destruct argv as [|[a|] r]; simpl in *; congruence.
Qed.

(** X4: the first revision knows no reserved token. Every array its
    [execute_cmd] hands to [execv] holds the whole line after the path in
    slot 0, ["<"], [">"] and ["&"] tokens included: they reach the program
    as arguments. *)
Theorem first_revision_passes_every_token (t : tokens) (w : World) :
  exists evs,
    trace (final (execute_cmd_v1 t w)) = trace w ++ evs /\
    forall path a, In (EvExecv path a) evs -> exec_args a = path :: tl t.
Proof.
  destruct (resolve_phase_passes_array (build_argv t) w)
    as [(_ & _ & _ & _ & _ & _ & _ & evs & He & HF) _].
  exists evs. split; [exact He|].
  intros path a Hin. rewrite Forall_forall in HF.
  specialize (HF _ Hin). simpl in HF. now rewrite exec_args_build in HF.
Qed.

(** ** The child, from [fork] to its end *)

Lemma setpgid_returns pid pgid w :
  exists r w',
    setpgid pid pgid w = Ret r w' /\
    trace w' = trace w ++ [EvSetpgid pid pgid] /\
    env w' = env w /\ fd0 w' = fd0 w /\ fd1 w' = fd1 w /\
    handlers w' = handlers w /\ self w' = self w.
Proof.
  unfold setpgid.
  destruct ((pid <? 0) || (pgid <? 0)); [eexists _, _; repeat split|].
  destruct (pgid_of _ _); [|eexists _, _; repeat split].
  destruct (_ || _); eexists _, _; repeat split.
Qed.

(** The child's side of [launch_process] up to [execute_cmd], whatever the
    process table holds. *)
Lemma launch_child_reaches_execute cpid t w :
  exists w5,
    launch_process (InChild cpid) t w =
    bind (execute_cmd t) (fun r => if r =? -1 then bail_out else ret tt) w5 /\
    trace w5 = trace w ++ child_setup /\
    env w5 = env w /\ fd0 w5 = fd0 w /\ fd1 w5 = fd1 w.
Proof.
  unfold launch_process.
  unfold bind at 1. unfold fork.
  unfold bind at 1.
  match goal with
  | |- context [setpgid 0 0 ?w0] =>
      destruct (setpgid_returns 0 0 w0)
        as (r & w2 & -> & Ht & He & H0 & H1 & _)
  end.
  simpl in Ht, He, H0, H1.
  change (0 =? 0) with true. cbv iota.
  unfold init_child_process.
  repeat (unfold bind at 1; unfold signal at 1).
  eexists. split; [reflexivity|]. simpl.
  rewrite Ht, He, H0, H1. unfold child_setup.
  repeat rewrite <- app_assoc. simpl. auto.
Qed.

Lemma launch_child_ends (cpid : Z) (t : tokens) (w : World) :
  match launch_process (InChild cpid) t w with
  | Replaced _ _ _ | Undefined _ => True
  | Exited status w' =>
      status = 1 /\
      exists evs, trace w' = evs ++ [EvPrintf diagnostic; EvExit 1]
  | Ret _ _ | Blocked _ => False
  end.
Proof.
  destruct (launch_child_reaches_execute cpid t w) as (w5 & -> & _).
  pose proof (calm_execute_cmd t w5) as Hc.
  destruct (execute_cmd_runs t w5) as [_ Hq].
  unfold bind.
  destruct (execute_cmd t w5) as [r w6|p a w6|s w6|w6|w6];
    simpl in Hc; try contradiction; auto.
  rewrite (Hq r w6 eq_refl). simpl.
  split; [reflexivity|]. exists (trace w6).
  rewrite <- app_assoc. reflexivity.
Qed.

(** X5: the child never comes back from [launch_process] into the read
    loop, and never blocks: it ends in the program started by [execv], in
    undefined behaviour, or in [exit(1)], and in the last case the
    diagnostic has been printed just before. *)
Theorem child_never_returns (cpid : Z) (t : tokens) (w : World) :
  match launch_process (InChild cpid) t w with
  | Replaced _ _ _ | Undefined _ => True
  | Exited status w' =>
      status = 1 /\
      exists evs, trace w' = evs ++ [EvPrintf diagnostic; EvExit 1]
  | Ret _ _ | Blocked _ => False
  end.
Proof. apply launch_child_ends. Qed.

Lemma tried_all_fail e cmd dirs :
  Forall (fun d => can_exec e (candidate cmd d) = false) dirs ->
  tried e cmd dirs = dirs /\ winner e cmd dirs = None.
Proof.
  induction 1 as [|d rest Hd _ [IH1 IH2]]; simpl; [auto|].
  rewrite Hd, IH1, IH2. auto.
Qed.

Lemma fd1_emits evs : forall w, fd1 (emits evs w) = fd1 w.
Proof.
  induction evs as [|e evs IH]; intros w; simpl; [reflexivity|].
  unfold emits in IH. now rewrite IH.
Qed.

Lemma slot_build_argv t cmd :
  hd_error t = Some cmd -> slot (build_argv t) 0 = Some (Some cmd).
Proof.
  rewrite build_argv_map. destruct t; simpl; [discriminate | congruence].
Qed.

(** X6: command not found. On a line without reserved tokens whose command
    name is bare and can be run from no directory of [PATH], the child
    calls [execv] once per directory, in [PATH] order and each time with
    the whole line as arguments, then prints the diagnostic on its standard
    output and exits with status 1. *)
Theorem command_not_found
  (cpid : Z) (t : tokens) (w : World) (cmd : string) :
  (forall a, In a t -> is_marker a = false) ->
  hd_error t = Some cmd ->
  cmd_needs_path_resolution cmd = true ->
  Forall (fits cmd) (CStr.strsep_all (env_PATH (env w))) ->
  Forall (fun d => can_exec (env w) (candidate cmd d) = false)
         (CStr.strsep_all (env_PATH (env w))) ->
  result_of (launch_process (InChild cpid) t w) = Exits 1 /\
  trace (final (launch_process (InChild cpid) t w)) =
  trace w ++ child_setup
          ++ map (attempt (build_argv t) cmd)
                 (CStr.strsep_all (env_PATH (env w)))
          ++ [EvPrintf diagnostic; EvExit 1].
Proof.
  intros Hfree Hhd Hbare Hfit Hfail.
  destruct (launch_child_reaches_execute cpid t w)
    as (w5 & -> & Ht & He & _).
  destruct (marker_free_needs t Hfree) as [Hr Hb].
  assert (Hs : strip_phase t w5 = Ret (build_argv t) w5)
    by (unfold strip_phase; rewrite Hr, Hb; reflexivity).
  destruct (execute_cmd_resolve t w5 (build_argv t) w5 cmd Hs
              (slot_build_argv t cmd Hhd)) as [_ Hx].
  rewrite Hbare, He in Hx.
  destruct (tried_all_fail _ _ _ Hfail) as [Htr Hwin].
  assert (Hfit' : Forall (fits cmd)
            (tried (env w5) cmd (CStr.strsep_all (env_PATH (env w)))))
    by (rewrite He, Htr; exact Hfit).
  pose proof (resolve_loop_fits _ (build_argv t) cmd w5
                (slot_build_argv t cmd Hhd) Hfit') as HL.
  rewrite He, Hwin, Htr in HL.
  assert (Heq : bind (execute_cmd t)
                     (fun r => if r =? -1 then bail_out else ret tt) w5
                = bail_out (emits (map (attempt (build_argv t) cmd)
                                      (CStr.strsep_all (env_PATH (env w)))) w5)).
  { unfold bind at 1. rewrite Hx. unfold bind at 1. rewrite HL. reflexivity. }
  rewrite Heq. unfold bail_out, bind, printf, exit. cbn [final result_of].
  rewrite !trace_emit, trace_emits, Ht.
  repeat rewrite <- app_assoc. auto.
Qed.

Lemma command_not_found_witness :
  (forall a, In a ["nosuch"; "x"] -> is_marker a = false) /\
  Forall (fits "nosuch") ["/a"; "/b"] /\
  Forall (fun d => can_exec Sample.usual (candidate "nosuch" d) = false)
         ["/a"; "/b"] /\
  trace (final (launch_process (InChild 8) ["nosuch"; "x"]
                  (Sample.interactive Sample.usual))) =
  child_setup
    ++ [EvExecv "/a/nosuch" [Some "/a/nosuch"; Some "x"; None];
        EvExecv "/b/nosuch" [Some "/b/nosuch"; Some "x"; None]]
    ++ [EvPrintf diagnostic; EvExit 1].
Proof.
  assert (H1 : forall a, In a ["nosuch"; "x"] -> is_marker a = false)
    by (intros a [<-|[<-|[]]]; reflexivity).
  assert (H2 : Forall (fits "nosuch") ["/a"; "/b"])
    by (repeat constructor; unfold fits, FULL_PATH_CMD_SIZE; simpl; lia).
  assert (H3 : Forall (fun d => can_exec Sample.usual (candidate "nosuch" d)
                                = false) ["/a"; "/b"])
    by (repeat constructor).
  split; [exact H1|]. split; [exact H2|]. split; [exact H3|].
  exact (proj2 (command_not_found 8 ["nosuch"; "x"]
                  (Sample.interactive Sample.usual) "nosuch"
                  H1 eq_refl eq_refl H2 H3)).
Defined.

Lemma needs_redirection_app pre op post :
  is_redirect op = true ->
  program_needs_io_redirection (pre ++ op :: post) = true.
Proof.
  intros Hop. induction pre as [|a r IH]; simpl.
  - change (CStr.streq op "<" || CStr.streq op ">") with (is_redirect op).
    now rewrite Hop.
  - destruct (CStr.streq a "<" || CStr.streq a ">"); auto.
Qed.

(** X7: the diagnostic is written to standard output as redirection left
    it. Take a line [cmd ... > file ...] whose first redirection operator
    is that [">"] (no ["<"] or [">"] stands before it) and whose [file] can
    be opened for writing. When its bare command name is found on no
    directory of [PATH], every candidate fitting the path buffer, the child
    gives up in a state where descriptor 1 is [file], opened with mode "w":
    the message goes into the file. *)
Theorem diagnostic_follows_redirection
  (cpid : Z) (cmd : string) (pre : list string) (file : string)
  (post : list string) (w : World) :
  is_marker cmd = false ->
  program_needs_io_redirection pre = false ->
  can_write (env w) file = true ->
  cmd_needs_path_resolution cmd = true ->
  Forall (fits cmd) (CStr.strsep_all (env_PATH (env w))) ->
  Forall (fun d => can_exec (env w) (candidate cmd d) = false)
         (CStr.strsep_all (env_PATH (env w))) ->
  exists w',
    launch_process (InChild cpid) (cmd :: pre ++ ">" :: file :: post) w
    = bail_out w' /\
    fd1 w' = ToFile file mode_w.
Proof.
  intros Hcmd Hpre Hw Hbare Hfit Hfail.
  destruct (launch_child_reaches_execute cpid
              (cmd :: pre ++ ">" :: file :: post) w)
    as (w5 & -> & _ & He & _).
  unfold is_marker in Hcmd. apply orb_false_iff in Hcmd.
  destruct Hcmd as [Hcr Hcb].
  assert (Hpre' : program_needs_io_redirection (cmd :: pre) = false).
  { simpl.
    change (CStr.streq cmd "<" || CStr.streq cmd ">") with (is_redirect cmd).
    now rewrite Hcr. }
  set (t := cmd :: pre ++ ">" :: file :: post) in *.
  assert (Hneed : program_needs_io_redirection t = true)
    by (apply (needs_redirection_app (cmd :: pre) ">"); reflexivity).
  set (A := map Some (cmd :: pre) ++ None :: map Some (file :: post) ++ [None]).
  set (argv := if program_needs_put_in_background t
               then cmd_line_remove_put_process_in_background_flag A
               else A).
  set (w6 := set_fd1 (ToFile file mode_w)
               (emit (EvDup2 (file, mode_w) STDOUT_FILENO)
                  (emit (EvFopen file mode_w true) w5))).
  assert (Hs : strip_phase t w5 = Ret argv w6).
  { unfold strip_phase. rewrite Hneed.
    change t with ((cmd :: pre) ++ ">" :: file :: post).
    rewrite (redirects_at_first (cmd :: pre) ">" (file :: post) Hpre' eq_refl).
    unfold bind, fopen, fileno, dup2. simpl. rewrite He, Hw. reflexivity. }
  assert (H0 : slot argv 0 = Some (Some cmd)).
  { unfold argv, A. destruct (program_needs_put_in_background t); simpl.
    - change (CStr.streq cmd "&") with (is_background cmd). now rewrite Hcb.
    - reflexivity. }
  destruct (execute_cmd_resolve t w5 argv w6 cmd Hs H0) as [He6 Hx].
  rewrite Hbare, He in Hx.
  destruct (tried_all_fail _ _ _ Hfail) as [Htr Hwin].
  assert (Hfit' : Forall (fits cmd)
            (tried (env w6) cmd (CStr.strsep_all (env_PATH (env w)))))
    by (rewrite He6, He, Htr; exact Hfit).
  pose proof (resolve_loop_fits _ argv cmd w6 H0 Hfit') as HL.
  rewrite He6, He, Hwin, Htr in HL.
  unfold bind at 1. rewrite Hx. unfold bind at 1. rewrite HL.
  eexists. split; [reflexivity|].
  rewrite fd1_emits. reflexivity.
Qed.

Lemma diagnostic_follows_redirection_witness :
  can_write Sample.usual "out.txt" = true /\
  Forall (fits "nosuch") ["/a"; "/b"] /\
  exists w',
    launch_process (InChild 8) ["nosuch"; "x"; ">"; "out.txt"]
                   (Sample.interactive Sample.usual) = bail_out w' /\
    fd1 w' = ToFile "out.txt" mode_w.
Proof.
  assert (H2 : Forall (fits "nosuch") ["/a"; "/b"])
    by (repeat constructor; unfold fits, FULL_PATH_CMD_SIZE; simpl; lia).
  split; [reflexivity|]. split; [exact H2|].
  apply (diagnostic_follows_redirection 8 "nosuch" ["x"] "out.txt" []
           (Sample.interactive Sample.usual));
    try reflexivity; [exact H2 | repeat constructor].
Defined.

(** ** Lines the resolution step cannot use *)

(** X8: a redirection operator that is the last token of the line, and the
    first redirection operator on it, has the null slot that ends the array
    as its operand: [fopen] is called with a null file name. Nothing has
    been opened, rebound or executed by then. *)
Theorem redirection_operator_last
  (pre : list string) (op : string) (w : World) :
  program_needs_io_redirection pre = false ->
  is_redirect op = true ->
  process_redirects_io (tokens_get_length (pre ++ [op]))
                       (build_argv (pre ++ [op])) w = Undefined w /\
  execute_cmd (pre ++ [op]) w = Undefined w.
Proof.
  intros Hpre Hop.
  assert (H : process_redirects_io (tokens_get_length (pre ++ [op]))
                                   (build_argv (pre ++ [op])) w = Undefined w)
    by (rewrite (redirects_at_first pre op [] Hpre Hop); reflexivity).
  split; [exact H|].
  unfold execute_cmd. rewrite (needs_redirection_app pre op [] Hop).
  unfold bind at 1. rewrite H. reflexivity.
Qed.

Lemma redirection_operator_last_witness :
  program_needs_io_redirection ["cat"] = false /\
  is_redirect "<" = true /\
  execute_cmd ["cat"; "<"] (Sample.interactive Sample.usual)
  = Undefined (Sample.interactive Sample.usual).
Proof.
  split; [reflexivity|]. split; [reflexivity|].
  exact (proj2 (redirection_operator_last ["cat"] "<"
                  (Sample.interactive Sample.usual) eq_refl eq_refl)).
Defined.

(** X9: a line without a command word, that is an empty line or a line
    that begins with ["<"], [">"] or ["&"], leaves null in slot 0 of the
    array, and [cmd_needs_path_resolution] is called on it: [execute_cmd]
    ends in undefined behaviour without a single [execv] call. *)
Theorem line_without_command_word (t : tokens) (w : World) :
  (forall cmd, hd_error t = Some cmd -> is_marker cmd = true) ->
  result_of (execute_cmd t w) = Undef /\
  exists evs,
    trace (final (execute_cmd t w)) = trace w ++ evs /\
    Forall (fun e => is_execv e = false) evs.
Proof.
  intros Hhd.
  assert (Hcut : args_before is_marker t = []).
  { destruct t as [|a r]; simpl; [reflexivity|].
    now rewrite (Hhd a eq_refl). }
  split.
  - rewrite execute_cmd_split. unfold bind.
    pose proof (calm_strip_phase false t w) as Hc.
    destruct (strip_phase_runs (fun _ => True) t (fun _ _ => I) w) as [_ Hq].
    destruct (strip_phase t w) as [argv w1|p a w1|s w1|w1|w1];
      try contradiction; try discriminate; [|reflexivity].
    destruct (Hq argv w1 eq_refl) as [Ha _]. rewrite Hcut in Ha.
    unfold resolve_phase.
    destruct argv as [|[a|] r]; simpl in *; try reflexivity. discriminate.
  - destruct (execute_cmd_runs t w)
      as [(_ & _ & _ & _ & _ & _ & _ & evs & He & HF) _].
    exists evs. split; [exact He|].
    eapply Forall_impl; [|exact HF].
    intros [] H; simpl in *; auto.
    destruct H as (_ & cmd & Hc & _). rewrite Hcut in Hc. discriminate.
Qed.

Lemma line_without_command_word_witness :
  (forall cmd, hd_error [">"; "out.txt"; "ls"] = Some cmd ->
               is_marker cmd = true) /\
  result_of (execute_cmd [">"; "out.txt"; "ls"]
               (Sample.interactive Sample.usual)) = Undef.
Proof.
  assert (H : forall cmd, hd_error [">"; "out.txt"; "ls"] = Some cmd ->
                          is_marker cmd = true)
    by (intros cmd [= <-]; reflexivity).
  split; [exact H|].
  exact (proj1 (line_without_command_word [">"; "out.txt"; "ls"]
                  (Sample.interactive Sample.usual) H)).
Defined.

(** ** Start-up and the foreground protocol *)

(** [init_shell] in a shell that has a terminal and is in the foreground. *)
Lemma init_shell_foreground w ty :
  term w = Some ty ->
  fg_pgrp ty = parent_group w ->
  exists w0,
    init_shell w = Ret tt w0 /\
    glob w0 = mk_globals true STDIN_FILENO (tmodes ty) (self w) /\
    (handlers w0 SIGINT = SIG_IGN /\ handlers w0 SIGTSTP = SIG_IGN /\
     handlers w0 SIGTTOU = SIG_IGN) /\
    term w0 = Some (mk_tty (if group_exists (procs w) (self w)
                               || (pid_as_pgrp (env w)
                                   && is_process (procs w) (self w))
                            then self w else fg_pgrp ty) (tmodes ty)) /\
    trace w0 = trace w ++ [EvTcgetpgrp 0; EvSignal SIGINT SIG_IGN;
                           EvSignal SIGTSTP SIG_IGN; EvSignal SIGTTOU SIG_IGN;
                           EvTcsetpgrp 0 (self w); EvTcgetattr 0] /\
    self w0 = self w /\ procs w0 = procs w /\ children w0 = children w /\
    exit_order w0 = exit_order w /\ env w0 = env w.
Proof.
  unfold parent_group, is_process.
  destruct (group_exists (procs w) (self w)) eqn:Eg;
    destruct (pid_as_pgrp (env w)) eqn:Eo;
    destruct (pgid_of (procs w) (self w)) eqn:Epg;
    intros Hterm Hfg; destruct ty as [fg modes]; simpl in Hfg; subst fg;
    unfold init_shell, bind, set_shell_terminal, global, isatty,
      set_shell_is_interactive, tcgetpgrp, getpgrp, set_shell_pgid, signal,
      getpid, tcsetpgrp, tcgetattr_shell_tmodes, STDIN_FILENO, parent_group,
      is_process;
    simpl;
    repeat (rewrite ?Hterm, ?Eg, ?Eo, ?Epg, ?Z.eqb_refl; simpl);
    (eexists; split; [reflexivity|]); simpl;
    repeat rewrite <- app_assoc; simpl; repeat split; try reflexivity;
    exact Hterm.
Qed.



(** X11: start-up on a terminal, in the foreground. [init_shell] returns
    with SIGINT, SIGTSTP and SIGTTOU ignored, with [shell_tmodes] holding
    the modes the terminal has at that moment and [shell_pgid] holding the
    shell's pid (not its process group). The terminal is given to the group
    of that number if some process is in it. If none is, the shell has
    named a pid to [tcsetpgrp]: where the system takes a process's pid
    there, as Linux does, that number becomes the foreground group; where
    it refuses, as POSIX asks, the terminal stays with the shell's
    group. *)
Theorem init_shell_on_terminal (w : World) (ty : tty) :
  term w = Some ty ->
  fg_pgrp ty = parent_group w ->
  result_of (init_shell w) = Returns tt /\
  glob (final (init_shell w))
  = mk_globals true STDIN_FILENO (tmodes ty) (self w) /\
  handlers (final (init_shell w)) SIGINT = SIG_IGN /\
  handlers (final (init_shell w)) SIGTSTP = SIG_IGN /\
  handlers (final (init_shell w)) SIGTTOU = SIG_IGN /\
  term (final (init_shell w))
  = Some (mk_tty (if group_exists (procs w) (self w)
                     || (pid_as_pgrp (env w)
                         && is_process (procs w) (self w))
                  then self w else parent_group w) (tmodes ty)) /\
  trace (final (init_shell w))
  = trace w ++ [EvTcgetpgrp 0; EvSignal SIGINT SIG_IGN;
                EvSignal SIGTSTP SIG_IGN; EvSignal SIGTTOU SIG_IGN;
                EvTcsetpgrp 0 (self w); EvTcgetattr 0].
Proof.
  intros Hterm Hfg.
  destruct (init_shell_foreground w ty Hterm Hfg)
    as (w0 & -> & Hg & (H1 & H2 & H3) & Ht & Htr & _).
  simpl. rewrite <- Hfg. auto 10.
Qed.

Lemma init_shell_on_terminal_witness :
  term (Sample.boot Sample.usual (Some (mk_tty 3 Sample.cooked)))
  = Some (mk_tty 3 Sample.cooked) /\
  fg_pgrp (mk_tty 3 Sample.cooked)
  = parent_group (Sample.boot Sample.usual (Some (mk_tty 3 Sample.cooked))) /\
  glob (final (init_shell
                 (Sample.boot Sample.usual (Some (mk_tty 3 Sample.cooked)))))
  = mk_globals true 0 Sample.cooked 3.
Proof.
  split; [reflexivity|]. split; [reflexivity|].
  destruct (init_shell_on_terminal
              (Sample.boot Sample.usual (Some (mk_tty 3 Sample.cooked)))
              (mk_tty 3 Sample.cooked) eq_refl eq_refl) as (_ & H & _).
  exact H.
Defined.




(** X13: as long as no child of the shell terminates, the parent does not
    come back from a foreground launch: it is suspended in [wait], the
    terminal handed to the job's group, and has called nothing after the
    hand-over. *)
Theorem foreground_blocks_until_a_child_exits
  (pid : Z) (t : tokens) (w : World) (ty : tty) :
  0 < pid ->
  ~ In "&"%string t ->
  shell_terminal (glob w) = STDIN_FILENO ->
  term w = Some ty ->
  pgid_of (procs w) pid = None ->
  next_exit (children w ++ [pid]) (exit_order w) = None ->
  result_of (launch_process (InParent pid) t w) = Blocks /\
  trace (final (launch_process (InParent pid) t w)) =
  trace w ++ [EvFork pid; EvSetpgid pid pid; EvTcsetpgrp 0 pid] /\
  term (final (launch_process (InParent pid) t w)) =
  Some (mk_tty pid (tmodes ty)).
Proof.
  intros Hpos Hfg Hfd Hterm Hfresh Hnext.
  assert (Hbg : program_needs_put_in_background t = false).
  { destruct (program_needs_put_in_background t) eqn:E; [|reflexivity].
    apply needs_background_In in E. contradiction. }
  assert (Hne : (pid =? 0) = false) by (apply Z.eqb_neq; lia).
  assert (Hlt : (pid <? 0) = false) by (apply Z.ltb_ge; lia).
  assert (Hg1 : group_exists (procs w ++ [(pid, pid)]) pid = true).
  { apply (group_exists_In _ pid). apply in_or_app. right. simpl. auto. }
  unfold launch_process, bind, fork, setpgid. simpl.
  rewrite Hne, Hlt. simpl.
  rewrite (pgid_of_fresh _ _ (parent_group w) Hfresh), Z.eqb_refl. simpl.
  rewrite (pgid_set_fresh _ _ _ pid Hfresh), Hbg.
  unfold put_process_in_foreground, bind, global, tcsetpgrp, wait.
  unfold STDIN_FILENO in Hfd.
  simpl. rewrite !Hfd, Hterm. simpl. rewrite Hg1. simpl.
  destruct (children w ++ [pid]) as [|k ks] eqn:Ek.
  { destruct (children w); discriminate. }
  rewrite Hnext. simpl.
  repeat rewrite <- app_assoc. simpl. auto.
Qed.

Lemma foreground_blocks_until_a_child_exits_witness :
  0 < 8 /\ ~ In "&"%string ["ls"] /\
  next_exit (children (Sample.interactive Sample.usual) ++ [8])
            (exit_order (Sample.interactive Sample.usual)) = None /\
  result_of (launch_process (InParent 8) ["ls"]
               (Sample.interactive Sample.usual)) = Blocks.
Proof.
  assert (Hno : ~ In "&"%string ["ls"])
    by (intros [H|[]]; discriminate).
  split; [reflexivity|]. split; [exact Hno|]. split; [reflexivity|].
  exact (proj1
    (foreground_blocks_until_a_child_exits 8 ["ls"]
       (Sample.interactive Sample.usual) (mk_tty 3 Sample.cooked)
       eq_refl Hno eq_refl eq_refl eq_refl eq_refl)).
Defined.

Lemma pgid_of_In ps p g : pgid_of ps p = Some g -> In (p, g) ps.
Proof.
  unfold pgid_of. destruct (find _ ps) as [[q h]|] eqn:E; [|discriminate].
  intros [= <-]. apply find_some in E. destruct E as [Hin He].
  simpl in He. apply Z.eqb_eq in He. now subst q.
Qed.

(** X14: save and restore. In a shell that leads its own process group and
    owns the terminal at start-up, [init_shell] followed by the launch of a
    foreground job leaves the terminal exactly as it was before
    [init_shell]: owned by the shell's group and in the modes it had then,
    whatever modes the job has left behind. *)
Theorem terminal_as_at_startup_after_job
  (pid : Z) (t : tokens) (w : World) (ty : tty) (c : Z) (rest : list Z) :
  term w = Some ty ->
  fg_pgrp ty = self w ->
  pgid_of (procs w) (self w) = Some (self w) ->
  0 < pid ->
  ~ In "&"%string t ->
  pgid_of (procs w) pid = None ->
  ~ In (self w) (children w) ->
  next_exit (children w ++ [pid]) (exit_order w) = Some (c, rest) ->
  result_of ((init_shell ;; launch_process (InParent pid) t) w) = Returns tt /\
  term (final ((init_shell ;; launch_process (InParent pid) t) w)) = term w.
Proof.
  intros Hterm Hfg Hlead Hpos Hno Hfresh Hkid Hnext.
  assert (Hpg : parent_group w = self w)
    by (unfold parent_group; now rewrite Hlead).
  assert (Hfg' : fg_pgrp ty = parent_group w) by congruence.
  destruct (init_shell_foreground w ty Hterm Hfg')
    as (w0 & Hinit & Hg & _ & Ht & _ & Hs & Hp & Hc & Ho & _).
  rewrite (group_exists_In _ _ _ (pgid_of_In _ _ _ Hlead)) in Ht.
  rewrite (bind_Ret _ _ _ _ _ Hinit).
  destruct (foreground_cycle pid t w0 (mk_tty (self w) (tmodes ty)) c rest)
    as (H1 & _ & H3 & _); auto.
  - now rewrite Hg.
  - now rewrite Hp.
  - rewrite Hs, Hp, Hg. simpl. now apply pgid_of_In.
  - now rewrite Hs, Hc.
  - now rewrite Hc, Ho.
  - split; [exact H1|]. rewrite H3, Hg, Hterm. simpl.
    destruct ty as [fg modes]. simpl in *. now subst fg.
Qed.

Lemma terminal_as_at_startup_after_job_witness :
  job_tmodes Sample.usual = Sample.raw /\
  term (final ((init_shell ;; launch_process (InParent 8) ["vi"])
                 (Sample.with_children [] [8]
                    (Sample.boot Sample.usual
                                 (Some (mk_tty 3 Sample.cooked))))))
  = Some (mk_tty 3 Sample.cooked).
Proof.
  assert (Hno : ~ In "&"%string ["vi"]) by (intros [H|[]]; discriminate).
  assert (Hkid : ~ In 3 []) by (simpl; tauto).
  split; [reflexivity|].
  exact (proj2
    (terminal_as_at_startup_after_job 8 ["vi"]
       (Sample.with_children [] [8]
          (Sample.boot Sample.usual (Some (mk_tty 3 Sample.cooked))))
       (mk_tty 3 Sample.cooked) 8 []
       eq_refl eq_refl eq_refl eq_refl Hno eq_refl Hkid eq_refl)).
Defined.

Lemma group_exists_false ps g :
  group_exists ps g = false <-> forall e, In e ps -> snd e <> g.
Proof.
  unfold group_exists. split.
  - intros H e He Hg. assert (existsb (fun e => snd e =? g) ps = true).
    { apply existsb_exists. exists e. split; [exact He|]. now apply Z.eqb_eq. }
    congruence.
  - intros H. destruct (existsb _ ps) eqn:E; [|reflexivity].
    apply existsb_exists in E. destruct E as (e & He & Hg).
    apply Z.eqb_eq in Hg. exfalso. exact (H e He Hg).
Qed.

Lemma is_process_In ps p g : In (p, g) ps -> is_process ps p = true.
Proof.
  intros H. unfold is_process.
  destruct (pgid_of ps p) eqn:E; [reflexivity|].
  rewrite pgid_of_none in E. exfalso. exact (E (p, g) H eq_refl).
Qed.

(** X15: [shell_pgid] is the shell's pid, not its process group. In a shell
    that leads no group (it runs in the group of the process that started
    it) the call that should take the terminal back after a foreground job
    names a number no process has for its group. Where the system refuses
    it, as POSIX asks, the terminal stays with the job's group; where the
    system takes a process's pid there, as Linux does, that number becomes
    the foreground group. Either way the job is over and the terminal's
    foreground group is not the group the shell is in. Its modes are
    restored all the same. *)
Theorem terminal_not_taken_back_without_own_group
  (pid : Z) (t : tokens) (w : World) (ty : tty) (g c : Z) (rest : list Z) :
  0 < pid ->
  ~ In "&"%string t ->
  shell_terminal (glob w) = STDIN_FILENO ->
  shell_pgid (glob w) = self w ->
  term w = Some ty ->
  pgid_of (procs w) (self w) = Some g ->
  group_exists (procs w) (self w) = false ->
  pgid_of (procs w) pid = None ->
  group_exists (procs w) pid = false ->
  ~ In (self w) (children w) ->
  next_exit (children w ++ [pid]) (exit_order w) = Some (c, rest) ->
  result_of (launch_process (InParent pid) t w) = Returns tt /\
  trace (final (launch_process (InParent pid) t w)) =
  trace w ++ [EvFork pid; EvSetpgid pid pid; EvTcsetpgrp 0 pid; EvWait c;
              EvTcsetpgrp 0 (self w);
              EvTcsetattr 0 (shell_tmodes (glob w))] /\
  term (final (launch_process (InParent pid) t w)) =
  Some (mk_tty (if pid_as_pgrp (env w) then self w else pid)
               (shell_tmodes (glob w))) /\
  In (self w, g) (procs (final (launch_process (InParent pid) t w))) /\
  g <> (if pid_as_pgrp (env w) then self w else pid).
Proof.
  intros Hpos Hfg Hfd Hpg Hterm Hself Hnog Hfresh Hnop Hkid Hnext.
  assert (Hbg : program_needs_put_in_background t = false).
  { destruct (program_needs_put_in_background t) eqn:E; [|reflexivity].
    apply needs_background_In in E. contradiction. }
  assert (Hne : (pid =? 0) = false) by (apply Z.eqb_neq; lia).
  assert (Hlt : (pid <? 0) = false) by (apply Z.ltb_ge; lia).
  pose proof (pgid_of_In _ _ _ Hself) as Hin.
  assert (Hsp : self w <> pid).
  { intros E. rewrite E in Hself. congruence. }
  assert (Hsc : self w <> c).
  { intros E. apply next_exit_child in Hnext. apply in_app_or in Hnext.
    destruct Hnext as [H|[H|[]]]; [apply Hkid; congruence | congruence]. }
  assert (Hgs : g <> self w).
  { intros E. rewrite group_exists_false in Hnog.
    exact (Hnog _ Hin E). }
  assert (Hgp : g <> pid).
  { intros E. rewrite group_exists_false in Hnop.
    exact (Hnop _ Hin E). }
  assert (Hin2 : In (self w, g)
                    (remove_proc c (procs w ++ [(pid, pid)]))).
  { apply remove_proc_In; [|exact Hsc]. apply in_or_app. now left. }
  assert (Hg1 : group_exists (procs w ++ [(pid, pid)]) pid = true).
  { apply (group_exists_In _ pid). apply in_or_app. right. simpl. auto. }
  assert (Hg2 : group_exists (remove_proc c (procs w ++ [(pid, pid)]))
                             (self w) = false).
  { apply group_exists_false. intros e He. unfold remove_proc in He.
    apply filter_In in He. destruct He as [He _].
    apply in_app_or in He. destruct He as [He|[<-|[]]].
    - rewrite group_exists_false in Hnog. now apply Hnog.
    - simpl. congruence. }
  pose proof (is_process_In _ _ _ Hin2) as Hp2.
  unfold launch_process, bind, fork, setpgid. simpl.
  rewrite Hne, Hlt. simpl.
  rewrite (pgid_of_fresh _ _ (parent_group w) Hfresh), Z.eqb_refl. simpl.
  rewrite (pgid_set_fresh _ _ _ pid Hfresh), Hbg.
  unfold put_process_in_foreground, bind, global, tcsetpgrp, wait, tcsetattr.
  unfold STDIN_FILENO in Hfd.
  cbn -[is_process group_exists remove_proc]. rewrite !Hfd, Hterm. cbn -[is_process group_exists remove_proc].
  rewrite Hg1. cbn -[is_process group_exists remove_proc].
  destruct (children w ++ [pid]) as [|k ks] eqn:Ek.
  { destruct (children w); discriminate. }
  rewrite Hnext. cbn -[is_process group_exists remove_proc].
  rewrite ?Hfd, ?Hpg. cbn -[is_process group_exists remove_proc].
  rewrite Hg2, Hp2.
  destruct (pid_as_pgrp (env w)); cbn -[is_process group_exists remove_proc];
    repeat (rewrite ?Hfd, ?Hpg; cbn -[is_process group_exists remove_proc]);
    repeat rewrite <- app_assoc; cbn -[is_process group_exists remove_proc]; auto 10.
Qed.

Lemma terminal_not_taken_back_without_own_group_witness :
  shell_pgid (glob Scripted.session) = 3 /\
  pgid_of (procs Scripted.session) 3 = Some 2 /\
  group_exists (procs Scripted.session) 3 = false /\
  pid_as_pgrp (env Scripted.session) = true /\
  term (final (launch_process (InParent 8) ["ls"] Scripted.session))
  = Some (mk_tty 3 Sample.cooked).
Proof.
  assert (Hno : ~ In "&"%string ["ls"]) by (intros [H|[]]; discriminate).
  assert (Hkid : ~ In (self Scripted.session) (children Scripted.session))
    by (intros []).
  split; [reflexivity|]. split; [reflexivity|]. split; [reflexivity|].
  split; [reflexivity|].
  exact (proj1 (proj2 (proj2
    (terminal_not_taken_back_without_own_group 8 ["ls"] Scripted.session
       (mk_tty 3 Sample.cooked) 2 8 []
       eq_refl Hno eq_refl eq_refl eq_refl eq_refl eq_refl eq_refl eq_refl
       Hkid eq_refl)))).
Defined.

(** ** Built-in commands *)

Lemma lookup_from_spec table : forall i c,
  (lookup_from i table (Some c) = -1 /\ ~ In c (map cmd_name table)) \/
  (exists k d,
      lookup_from i table (Some c) = i + Z.of_nat k /\
      nth_error table k = Some d /\ cmd_name d = c /\
      ~ In c (map cmd_name (firstn k table))).
Proof.
  induction table as [|d r IH]; intros i c; simpl.
  - left. auto.
  - destruct (CStr.streq (cmd_name d) c) eqn:E.
    + apply streq_true in E. right. exists O, d. simpl.
      rewrite Z.add_0_r. auto.
    + apply streq_false in E.
      destruct (IH (i + 1) c) as [[H1 H2] | (k & d' & H1 & H2 & H3 & H4)].
      * left. split; [exact H1|]. intros [H|H]; auto.
      * right. exists (S k), d'. rewrite H1. simpl.
        repeat split; auto; [lia|]. intros [H|H]; auto.
Qed.

(** X16: [lookup] finds the four built-in names and nothing else. A null
    command is no built-in; a name that is none of ["?"], ["exit"], ["pwd"],
    ["cd"], letter for letter, gives -1; any other result is the index of a
    table entry that bears the name looked up; and each entry is found at
    its own index. *)
Theorem lookup_finds_builtins :
  lookup None = -1 /\
  (forall c,
      (lookup (Some c) = -1 /\ ~ In c ["?"; "exit"; "pwd"; "cd"]%string) \/
      (exists k d, lookup (Some c) = Z.of_nat k /\
                   nth_error cmd_table k = Some d /\ cmd_name d = c)) /\
  (forall k d, nth_error cmd_table k = Some d ->
               lookup (Some (cmd_name d)) = Z.of_nat k).
Proof.
  split; [reflexivity|]. split.
  - intros c. unfold lookup.
    destruct (lookup_from_spec cmd_table 0 c)
      as [[H1 H2] | (k & d & H1 & H2 & H3 & _)].
    + left. auto.
    + right. exists k, d. auto.
  - intros k d H.
    destruct k as [|[|[|[|k]]]]; simpl in H;
      try (injection H as <-; reflexivity).
    destruct k; discriminate.
Qed.

(** Deciding every test of a computation. *)
Ltac decide_tests :=
  simpl in *;
  repeat (match goal with
          | H : Ret _ _ = Ret _ _ |- _ => inversion H; subst; clear H
          | H : Replaced _ _ _ = Replaced _ _ _ |- _ =>
              inversion H; subst; clear H
          | H : Exited _ _ = Exited _ _ |- _ => inversion H; subst; clear H
          | H : Blocked _ = Blocked _ |- _ => inversion H; subst; clear H
          | H : Undefined _ = Undefined _ |- _ => inversion H; subst; clear H
          | H : (_, _) = (_, _) |- _ => inversion H; subst; clear H
          | |- context [match ?e with _ => _ end] => destruct e eqn:?
          | H : context [match ?e with _ => _ end] |- _ => destruct e eqn:?
          end; simpl in *);
  try discriminate.



Lemma builtin_head t :
  0 <= lookup (tokens_get_token t 0) ->
  exists c r, t = c :: r /\ In c ["?"; "exit"; "pwd"; "cd"]%string.
Proof.
  destruct t as [|c r]; simpl; [intros H; exfalso; now apply H|].
  intros H. exists c, r. split; [reflexivity|]. unfold lookup in H.
  destruct (lookup_from_spec cmd_table 0 c)
    as [[H1 _] | (k & d & _ & H2 & H3 & _)]; [lia|].
  destruct k as [|[|[|[|k]]]]; simpl in H2;
    try (injection H2 as <-; subst c; simpl; tauto).
  destruct k; discriminate.
Qed.




(** X18: [exit] ends the session. When the first token of a line is
    ["exit"], whatever follows it on the line, the process exits with
    status 0 there and then: no prompt is printed after it and no later
    line is looked at. *)
Theorem exit_ends_the_session
  (rest : list string) (v : fork_view) (more : list (tokens * fork_view))
  (line_num : Z) (x : Extra) (w : World) :
  main_loop (("exit"%string :: rest, v) :: more) line_num x w
  = Exited 0 (emit (EvExit 0) w).
Proof. reflexivity. Qed.

(** ** [cd] and [pwd] *)

(** X19: [cd] to a directory that can be entered changes the working
    directory and prints it, and the line it prints is the line a [pwd]
    that follows prints; standard error is not written to. *)
Theorem cd_prints_what_pwd_prints
  (t t' : tokens) (x : Extra) (w : World) (dir d s : string) :
  tokens_get_token t 1 = Some dir ->
  fs_chdir x (cwd x) dir = Some d ->
  fs_getcwd x d = Some s ->
  exists x',
    cmd_cd t x w = Ret (1, x') (emit (EvPrintf (s ++ newline)) w) /\
    cwd x' = d /\ stderr x' = stderr x /\
    forall w', cmd_pwd t' x' w' = Ret (1, x') (emit (EvPrintf (s ++ newline)) w').
Proof.
  intros Ht Hc Hg.
  exists (mk_Extra (fs_chdir x) (fs_getcwd x) d (stderr x)).
  split; [|split; [reflexivity|split; [reflexivity|]]].
  - unfold cmd_cd, chdir. rewrite Ht, Hc. simpl.
    unfold cmd_pwd, getcwd, bind. simpl. rewrite Hg. reflexivity.
  - intros w'. unfold cmd_pwd, getcwd, bind. simpl. rewrite Hg. reflexivity.
Qed.

Lemma cd_prints_what_pwd_prints_witness :
  tokens_get_token ["cd"; "tmp"] 1 = Some "tmp"%string /\
  fs_chdir Tree.at_root (cwd Tree.at_root) "tmp" = Some "/tmp"%string /\
  exists x',
    cmd_cd ["cd"; "tmp"] Tree.at_root (Sample.interactive Sample.usual)
    = Ret (1, x') (emit (EvPrintf ("/tmp" ++ newline))
                        (Sample.interactive Sample.usual)) /\
    cwd x' = "/tmp"%string.
Proof.
  split; [reflexivity|]. split; [reflexivity|].
  destruct (cd_prints_what_pwd_prints ["cd"; "tmp"] ["pwd"] Tree.at_root
              (Sample.interactive Sample.usual) "tmp" "/tmp" "/tmp"
              eq_refl eq_refl eq_refl) as (x' & H1 & H2 & _).
  exists x'. split; [exact H1 | exact H2].
Defined.

(** X20: [cd] to a directory that cannot be entered, its name short enough
    for the message buffer, returns 1 like a successful one. The working
    directory is unchanged, nothing is printed on standard output, and one
    message that begins with ["cd: "] and the name goes to standard
    error. *)
Theorem cd_failure_is_reported
  (t : tokens) (x : Extra) (w : World) (dir : string) :
  tokens_get_token t 1 = Some dir ->
  fs_chdir x (cwd x) dir = None ->
  (String.length dir < 124)%nat ->
  cmd_cd t x w = Ret (1, perror ("cd: " ++ dir) x) w /\
  cwd (perror ("cd: " ++ dir) x) = cwd x /\
  stderr (perror ("cd: " ++ dir) x) = stderr x ++ [("cd: " ++ dir)%string].
Proof.
  intros Ht Hc Hlen.
  unfold cmd_cd, chdir, sprintf_cd, bind. rewrite Ht, Hc. simpl.
  assert (Hfit : (S (S (S (S (String.length dir)))) <? ERROR_MSG_SIZE)%nat
                 = true)
    by (apply Nat.ltb_lt; unfold ERROR_MSG_SIZE; lia).
  rewrite Hfit. auto.
Qed.

Lemma cd_failure_is_reported_witness :
  tokens_get_token ["cd"; "nowhere"] 1 = Some "nowhere"%string /\
  fs_chdir Tree.at_root (cwd Tree.at_root) "nowhere" = None /\
  (String.length "nowhere" < 124)%nat /\
  cmd_cd ["cd"; "nowhere"] Tree.at_root (Sample.interactive Sample.usual)
  = Ret (1, perror "cd: nowhere" Tree.at_root)
        (Sample.interactive Sample.usual).
Proof.
  assert (Hlen : (String.length "nowhere" < 124)%nat) by (simpl; lia).
  split; [reflexivity|]. split; [reflexivity|]. split; [exact Hlen|].
  exact (proj1 (cd_failure_is_reported ["cd"; "nowhere"] Tree.at_root
                  (Sample.interactive Sample.usual) "nowhere"
                  eq_refl eq_refl Hlen)).
Defined.

(** X21: where [cd] goes wrong. Without an argument [chdir] is called with
    a null pointer and fails, and the message is then formatted from that
    null pointer; with the name of a directory that cannot be entered, 124
    characters long or more, the message overruns the 128 bytes of
    [error_msg]. In both cases [cmd_cd] ends in undefined behaviour, having
    written nothing. *)
Theorem cd_undefined_cases (t : tokens) (x : Extra) (w : World) :
  (tokens_get_token t 1 = None -> cmd_cd t x w = Undefined w) /\
  (forall dir,
      tokens_get_token t 1 = Some dir ->
      fs_chdir x (cwd x) dir = None ->
      (124 <= String.length dir)%nat ->
      cmd_cd t x w = Undefined w).
Proof.
  split.
  - intros Ht. unfold cmd_cd, chdir. rewrite Ht. reflexivity.
  - intros dir Ht Hc Hlen.
    unfold cmd_cd, chdir, sprintf_cd, bind. rewrite Ht, Hc. simpl.
    assert (Hfit : (S (S (S (S (String.length dir)))) <? ERROR_MSG_SIZE)%nat
                   = false)
      by (apply Nat.ltb_ge; unfold ERROR_MSG_SIZE; lia).
    rewrite Hfit. reflexivity.
Qed.

Lemma cd_undefined_cases_witness :
  tokens_get_token ["cd"] 1 = None /\
  cmd_cd ["cd"] Tree.at_root (Sample.interactive Sample.usual)
  = Undefined (Sample.interactive Sample.usual) /\
  (124 <= String.length (Sample.letters 124))%nat /\
  cmd_cd ["cd"; Sample.letters 124] Tree.at_root
         (Sample.interactive Sample.usual)
  = Undefined (Sample.interactive Sample.usual).
Proof.
  assert (Hlen : (124 <= String.length (Sample.letters 124))%nat)
    by (vm_compute; lia).
  split; [reflexivity|].
  split.
  - exact (proj1 (cd_undefined_cases ["cd"] Tree.at_root
                    (Sample.interactive Sample.usual)) eq_refl).
  - split; [exact Hlen|].
    exact (proj2 (cd_undefined_cases ["cd"; Sample.letters 124] Tree.at_root
                    (Sample.interactive Sample.usual))
                 (Sample.letters 124) eq_refl eq_refl Hlen).
Defined.

(** ** The read loop *)

Lemma keeps_refl P w : keeps P w w.
Proof. split; [reflexivity|]. exists []. now rewrite app_nil_r. Qed.

Lemma keeps_trans P w1 w2 w3 : keeps P w1 w2 -> keeps P w2 w3 -> keeps P w1 w3.
Proof.
  intros (g1 & e1 & He1 & F1) (g2 & e2 & He2 & F2).
  split; [congruence|]. exists (e1 ++ e2). split.
  - rewrite He2, He1, app_assoc. reflexivity.
  - apply Forall_app; auto.
Qed.

Section Keeping.

Variable P : event -> Prop.

Lemma keeping_ret {A} (a : A) : keeping P (ret a).
Proof. intros w. apply keeps_refl. Qed.

Lemma keeping_bind {A B} (m : M A) (k : A -> M B) :
  keeping P m -> (forall a, keeping P (k a)) -> keeping P (bind m k).
Proof.
  intros Hm Hk w. specialize (Hm w). unfold bind.
  destruct (m w) as [a w1| | | |]; simpl in *; auto.
  eapply keeps_trans; [exact Hm | apply Hk].
Qed.

Lemma keeping_global {X} (field : globals -> X) : keeping P (global field).
Proof. intros w. apply keeps_refl. Qed.

Lemma keeps_emit e w w' :
  P e -> glob w' = glob w -> trace w' = trace w ++ [e] -> keeps P w w'.
Proof. intros H Hg Ht. split; [exact Hg|]. exists [e]. auto. Qed.

Lemma keeping_setpgid pid pgid :
  P (EvSetpgid pid pgid) -> keeping P (setpgid pid pgid).
Proof.
  intros H w. unfold setpgid.
  destruct (_ || _); [apply (keeps_emit _ _ _ H); reflexivity|].
  destruct (pgid_of _ _); [|apply (keeps_emit _ _ _ H); reflexivity].
  destruct (_ || _); apply (keeps_emit _ _ _ H); reflexivity.
Qed.

Lemma keeping_tcsetpgrp fd pgrp :
  P (EvTcsetpgrp fd pgrp) -> keeping P (tcsetpgrp fd pgrp).
Proof.
  intros H w. unfold tcsetpgrp.
  destruct (fd =? 0); [|apply (keeps_emit _ _ _ H); reflexivity].
  destruct (term w); [|apply (keeps_emit _ _ _ H); reflexivity].
  destruct (_ || _); apply (keeps_emit _ _ _ H); reflexivity.
Qed.

Lemma keeping_tcsetattr fd t :
  P (EvTcsetattr fd t) -> keeping P (tcsetattr fd t).
Proof.
  intros H w. unfold tcsetattr.
  destruct (fd =? 0); [|apply (keeps_emit _ _ _ H); reflexivity].
  destruct (term w); apply (keeps_emit _ _ _ H); reflexivity.
Qed.

Lemma keeping_wait : (forall r, P (EvWait r)) -> keeping P wait.
Proof.
  intros H w. unfold wait.
  destruct (children w);
    [eapply keeps_emit; [apply H | reflexivity | reflexivity]|].
  destruct (next_exit _ _) as [[c rest]|]; [|apply keeps_refl].
  eapply keeps_emit; [apply H | reflexivity | reflexivity].
Qed.

End Keeping.

Lemma fork_in_shell v w :
  in_shell v ->
  exists pid w1,
    fork v w = Ret pid w1 /\ pid <> 0 /\
    keeps (fun e => is_printf e = false) w w1.
Proof.
  intros Hv. destruct v as [|c|c]; [| |contradiction].
  - exists (-1). eexists. split; [reflexivity|]. split; [discriminate|].
    apply (keeps_emit _ (EvFork (-1))); reflexivity.
  - exists c. eexists. split; [reflexivity|]. split; [exact Hv|].
    apply (keeps_emit _ (EvFork c)); reflexivity.
Qed.

(** The parent's side of a launch prints nothing and leaves the globals
    alone, however it ends. *)
Lemma launch_in_shell_keeps v t :
  in_shell v -> keeping (fun e => is_printf e = false) (launch_process v t).
Proof.
  intros Hv w.
  destruct (fork_in_shell v w Hv) as (pid & w1 & Hf & Hne & Hk).
  unfold launch_process. rewrite (bind_Ret _ _ _ _ _ Hf).
  eapply keeps_trans; [exact Hk|]. clear Hf Hk. revert w1.
  apply Z.eqb_neq in Hne. rewrite Hne.
  change (keeping (fun e => is_printf e = false)
            (setpgid pid pid ;;
             if program_needs_put_in_background t
             then put_process_in_background pid
             else put_process_in_foreground pid)).
  apply keeping_bind; [apply keeping_setpgid; reflexivity|]. intros _.
  destruct (program_needs_put_in_background t); [apply keeping_ret|].
  unfold put_process_in_foreground.
  repeat (first [ apply keeping_bind; [|intros ?]
                | apply keeping_global
                | apply keeping_tcsetpgrp; reflexivity
                | apply keeping_tcsetattr; reflexivity
                | apply keeping_wait; reflexivity
                | apply keeping_ret ]).
Qed.

Lemma dispatch_launches v t x w :
  lookup (tokens_get_token t 0) < 0 ->
  dispatch v t x w = (launch_process v t ;; ret x) w.
Proof.
  intros H. unfold dispatch.
  replace (lookup (tokens_get_token t 0) >=? 0) with false; [reflexivity|].
  symmetry. rewrite Z.geb_leb. apply Z.leb_gt. exact H.
Qed.

(** A line that comes back from [dispatch] has left the globals alone. *)
Lemma dispatch_ret_glob v t x w x1 w1 :
  v <> InParent 0 ->
  dispatch v t x w = Ret x1 w1 -> glob w1 = glob w.
Proof.
  intros Hv H.
  destruct (Z_lt_le_dec (lookup (tokens_get_token t 0)) 0) as [Hl|Hl].
  - rewrite (dispatch_launches v t x w Hl) in H. unfold bind in H.
    destruct v as [|c|c].
    + destruct (launch_in_shell_keeps ForkFailed t I w) as [Hg _].
      destruct (launch_process ForkFailed t w); try discriminate.
      injection H as _ <-. exact Hg.
    + assert (Hc : in_shell (InParent c)) by (simpl; congruence).
      destruct (launch_in_shell_keeps (InParent c) t Hc w) as [Hg _].
      destruct (launch_process (InParent c) t w); try discriminate.
      injection H as _ <-. exact Hg.
    + pose proof (launch_child_ends c t w) as Hc.
      destruct (launch_process (InChild c) t w); try discriminate.
      contradiction.
  - destruct (builtin_head t Hl) as (c & r & -> & Hc). simpl in Hc.
    destruct Hc as [<-|[<-|[<-|[<-|[]]]]];
      unfold dispatch in H; simpl in H;
      unfold bind, cmd_help, cmd_exit, cmd_cd, cmd_pwd, printf_line,
        sprintf_cd, chdir, getcwd, bind, printf, exit, ret, undefined in H;
      decide_tests; reflexivity.
Qed.

(** X22: the prompt counts the lines read. In an interactive session,
    when the loop has gone through all of a non-empty list of lines, the
    last thing the shell has printed is the prompt whose number is the
    number it started with plus the number of lines: every line counts,
    built-in, launched or empty, and the count is never reset. *)
Theorem prompt_counts_every_line
  (lines : list (tokens * fork_view)) :
  forall (line_num : Z) (x : Extra) (w : World) (r : Z) (w' : World),
  shell_is_interactive (glob w) = true ->
  Forall (fun l => snd l <> InParent 0) lines ->
  line_num + Z.of_nat (length lines) <= INT_MAX ->
  lines <> [] ->
  main_loop lines line_num x w = Ret r w' ->
  r = 0 /\
  exists evs,
    trace w' =
    evs ++ [EvPrintf (NilZero.string_of_int
                        (Z.to_int (line_num + Z.of_nat (length lines)))
                      ++ ": ")].
Proof.
  induction lines as [|[t v] rest IH];
    intros n x w r w' Hi Hv Hmax Hne Hrun; [congruence|].
  apply Forall_cons_iff in Hv. destruct Hv as [Hv Hvs]. simpl in Hv.
  cbn [main_loop] in Hrun. unfold bind at 1 in Hrun.
  destruct (dispatch v t x w) as [x1 w1| | | |] eqn:D; try discriminate.
  pose proof (dispatch_ret_glob v t x w x1 w1 Hv D) as Hg.
  assert (Hlt : (n <? INT_MAX) = true).
  { apply Z.ltb_lt. simpl length in Hmax. lia. }
  assert (Hp : next_prompt n w1 =
               Ret (n + 1) (emit (EvPrintf (NilZero.string_of_int
                                              (Z.to_int (n + 1)) ++ ": ")) w1)).
  { unfold next_prompt, bind, global, prompt, printf, ret.
    rewrite Hg, Hi, Hlt. reflexivity. }
  unfold bind at 1 in Hrun. rewrite Hp in Hrun.
  destruct rest as [|l rest'].
  - injection Hrun as <- <-. split; [reflexivity|].
    exists (trace w1). reflexivity.
  - replace (n + Z.of_nat (length ((t, v) :: l :: rest')))
      with ((n + 1) + Z.of_nat (length (l :: rest')))
      by (simpl length; lia).
    eapply IH; [| exact Hvs | | discriminate | exact Hrun].
    + simpl. now rewrite Hg.
    + simpl length in *. lia.
Qed.

Lemma prompt_counts_every_line_witness :
  shell_is_interactive (glob (Sample.interactive Sample.usual)) = true /\
  Forall (fun l : tokens * fork_view => snd l <> InParent 0)
         [(["cd"; "tmp"], ForkFailed); ([], ForkFailed);
          (["sleep"; "9"; "&"], InParent 8)] /\
  5 + Z.of_nat 3 <= INT_MAX /\
  exists w',
    main_loop [(["cd"; "tmp"], ForkFailed); ([], ForkFailed);
               (["sleep"; "9"; "&"], InParent 8)] 5 Tree.at_root
              (Sample.interactive Sample.usual) = Ret 0 w' /\
    exists evs, trace w' = evs ++ [EvPrintf "8: "].
Proof.
  assert (Hv : Forall (fun l : tokens * fork_view => snd l <> InParent 0)
                 [(["cd"; "tmp"], ForkFailed); ([], ForkFailed);
                  (["sleep"; "9"; "&"], InParent 8)])
    by (repeat constructor; discriminate).
  assert (Hmax : 5 + Z.of_nat 3 <= INT_MAX) by (unfold INT_MAX; simpl; lia).
  assert (Hrun : exists w',
             main_loop [(["cd"; "tmp"], ForkFailed); ([], ForkFailed);
                        (["sleep"; "9"; "&"], InParent 8)] 5 Tree.at_root
                       (Sample.interactive Sample.usual) = Ret 0 w')
    by (vm_compute; eexists; reflexivity).
  destruct Hrun as [w' Hrun].
  split; [reflexivity|]. split; [exact Hv|]. split; [exact Hmax|].
  exists w'. split; [exact Hrun|].
  exact (proj2 (prompt_counts_every_line _ 5 Tree.at_root
                  (Sample.interactive Sample.usual) 0 w'
                  eq_refl Hv Hmax ltac:(discriminate) Hrun)).
Defined.

(** X23: without a terminal the shell is silent. In a session that is not
    interactive, going through lines that are launched (none of them a
    built-in), the shell itself prints nothing, no prompt in particular,
    however the run ends, and its globals stay as they were. *)
Theorem batch_shell_prints_nothing
  (lines : list (tokens * fork_view)) :
  forall (line_num : Z) (x : Extra) (w : World),
  shell_is_interactive (glob w) = false ->
  Forall (fun l => lookup (tokens_get_token (fst l) 0) < 0 /\
                   in_shell (snd l)) lines ->
  glob (final (main_loop lines line_num x w)) = glob w /\
  exists evs,
    trace (final (main_loop lines line_num x w)) = trace w ++ evs /\
    Forall (fun e => is_printf e = false) evs.
Proof.
  induction lines as [|[t v] rest IH]; intros n x w Hi Hl.
  - apply keeps_refl.
  - apply Forall_cons_iff in Hl. destruct Hl as [[Hb Hv] Hl]. simpl in Hb, Hv.
    pose proof (launch_in_shell_keeps v t Hv w) as Hk.
    change (keeps (fun e => is_printf e = false) w
                  (final (main_loop ((t, v) :: rest) n x w))).
    cbn [main_loop]. unfold bind at 1.
    rewrite (dispatch_launches v t x w Hb). unfold bind.
    destruct (launch_process v t w) as [u w1| | | |]; simpl in Hk;
      try exact Hk.
    unfold ret. cbn iota beta.
    assert (Hp : next_prompt n w1 = Ret n w1).
    { unfold next_prompt, bind, global. destruct Hk as [-> _].
      rewrite Hi. reflexivity. }
    rewrite Hp.
    apply (keeps_trans _ w w1 _ Hk).
    apply IH; [|exact Hl]. destruct Hk as [-> _]. exact Hi.
Qed.

Lemma batch_shell_prints_nothing_witness :
  shell_is_interactive (glob (Sample.batch Sample.usual)) = false /\
  Forall (fun l : tokens * fork_view =>
            lookup (tokens_get_token (fst l) 0) < 0 /\ in_shell (snd l))
         [(["ls"], InParent 8); (["sleep"; "9"; "&"], InParent 9)] /\
  exists evs,
    trace (final (main_loop [(["ls"], InParent 8);
                             (["sleep"; "9"; "&"], InParent 9)] 0 Tree.at_root
                            (Sample.with_children [] [8]
                               (Sample.batch Sample.usual))))
    = trace (Sample.with_children [] [8] (Sample.batch Sample.usual)) ++ evs /\
    Forall (fun e => is_printf e = false) evs.
Proof.
  assert (Hl : Forall (fun l : tokens * fork_view =>
                         lookup (tokens_get_token (fst l) 0) < 0 /\
                         in_shell (snd l))
                 [(["ls"], InParent 8); (["sleep"; "9"; "&"], InParent 9)]).
  { repeat constructor; simpl; try reflexivity; discriminate. }
  split; [reflexivity|]. split; [exact Hl|].
  exact (proj2 (batch_shell_prints_nothing _ 0 Tree.at_root
                  (Sample.with_children [] [8] (Sample.batch Sample.usual))
                  eq_refl Hl)).
Defined.
